(** * ulauncher-fontawesome: icon search, copy content and SVG recoloring

    A shallow embedding of [main.py] and [svg_helper.py].

    Python text is modelled by [string]: a sequence of code points below 256.
    The file store maps a path to the text that [file.read()] returns, and a
    text written by [file.write] is what a later read returns; the
    translation of line ends by text mode is left out.  Calls to the logger
    change nothing the program reads and are left out too.  Exceptions are
    kept: a step that can raise in Python can raise in the model, and every
    [try] of the source is a [try_except] here. *)

From Stdlib Require Import Ascii.
From stdpp Require Import base option list strings gmap sorting.

Open Scope string_scope.

(** ** Python [str] primitives *)

Module Str.

(** The double quote character, code 34. *)
Definition dquote : ascii := "034"%char.
Definition backslash : ascii := "092"%char.

(** [q] is the one-character string holding a double quote. *)
Definition q : string := String dquote "".

Definition len (s : string) : nat := String.length s.

(** [startswith p s] is Python's [s.startswith(p)]. *)
Definition startswith (p s : string) : bool := String.prefix p s.

(** [str_in sub s] is Python's [sub in s]. *)
Fixpoint str_in (sub s : string) : bool :=
  startswith sub s ||
  match s with
  | "" => false
  | String _ s' => str_in sub s'
  end.

(** [endswith suf s] is Python's [s.endswith(suf)]. *)
Fixpoint endswith (suf s : string) : bool :=
  String.eqb s suf ||
  match s with
  | "" => false
  | String _ s' => endswith suf s'
  end.

(** [s[n:]]. *)
Fixpoint str_drop (n : nat) (s : string) : string :=
  match n, s with
  | O, _ => s
  | S _, "" => ""
  | S k, String _ s' => str_drop k s'
  end.

(** [s[:n]]. *)
Fixpoint str_take (n : nat) (s : string) : string :=
  match n, s with
  | O, _ => ""
  | S _, "" => ""
  | S k, String c s' => String c (str_take k s')
  end.

(** [lower_char] is [str.lower] on one code point below 256: the ASCII
    capitals and the Latin-1 capitals (192 to 222, the multiplication sign
    215 apart) move up by 32. *)
Definition lower_char (c : ascii) : ascii :=
  let n := nat_of_ascii c in
  if (((65 <=? n) && (n <=? 90)) ||
      ((192 <=? n) && (n <=? 222) && negb (n =? 215)))%nat
  then ascii_of_nat (n + 32) else c.

Fixpoint lower (s : string) : string :=
  match s with
  | "" => ""
  | String c s' => String (lower_char c) (lower s')
  end.

(** [replace_from old new skip s]: scan of [s.replace(old, new)] for a
    non-empty [old]; [skip] counts the characters of the occurrence being
    replaced that are still to be passed over. *)
Fixpoint replace_from (old new : string) (skip : nat) (s : string) : string :=
  match s with
  | "" => ""
  | String c s' =>
      match skip with
      | S k => replace_from old new k s'
      | O =>
          if startswith old s
          then new +:+ replace_from old new (len old - 1) s'
          else String c (replace_from old new 0 s')
      end
  end.

(** With an empty [old], Python puts [new] before every character and at the
    end. *)
Fixpoint replace_empty (new s : string) : string :=
  match s with
  | "" => new
  | String c s' => new +:+ String c (replace_empty new s')
  end.

(** [replace old new s] is Python's [s.replace(old, new)]: every occurrence,
    leftmost first, occurrences not overlapping. *)
Definition replace (old new s : string) : string :=
  match old with
  | "" => replace_empty new s
  | _ => replace_from old new 0 s
  end.

(** Number of occurrences [replace] rewrites: Python's [s.count(old)] for a
    non-empty [old]. *)
Fixpoint count_from (old : string) (skip : nat) (s : string) : nat :=
  match s with
  | "" => 0
  | String _ s' =>
      match skip with
      | S k => count_from old k s'
      | O =>
          if startswith old s
          then S (count_from old (len old - 1) s')
          else count_from old 0 s'
      end
  end.

Definition count (old s : string) : nat := count_from old 0 s.

End Str.

(** ** The calls into Python's [re] module

    [svg_helper.py] makes one call, [re.sub(r'fill=Q[^Q]*Q', repl, text)]
    where Q is the double quote.  The pattern has no group.  [re.sub] first
    compiles the replacement [repl] as a template (CPython 3.12,
    [re._parser.parse_template]) and raises [re.error] when it is malformed,
    whether or not the pattern occurs in the text. *)

Module Re.
Import Str.

(** An item of a compiled template: a literal character, or a reference to
    group 0, the whole match. *)
Inductive item : Type :=
  | Lit (c : ascii)
  | Whole.

Definition template : Type := list item.

Definition code (c : ascii) : nat := nat_of_ascii c.
Definition chr (n : nat) : ascii := ascii_of_nat n.

Definition is_digit (c : ascii) : bool :=
  ((48 <=? code c) && (code c <=? 57))%nat.
Definition is_octdigit (c : ascii) : bool :=
  ((48 <=? code c) && (code c <=? 55))%nat.
Definition is_ascii_letter (c : ascii) : bool :=
  (((65 <=? code c) && (code c <=? 90)) ||
   ((97 <=? code c) && (code c <=? 122)))%nat.
Definition digit_val (c : ascii) : nat := code c - 48.

(** The table [ESCAPES] of [re._parser], by the character after the
    backslash. *)
Definition escapes (c : ascii) : option ascii :=
  if Ascii.eqb c "a" then Some (chr 7)
  else if Ascii.eqb c "b" then Some (chr 8)
  else if Ascii.eqb c "f" then Some (chr 12)
  else if Ascii.eqb c "n" then Some (chr 10)
  else if Ascii.eqb c "r" then Some (chr 13)
  else if Ascii.eqb c "t" then Some (chr 9)
  else if Ascii.eqb c "v" then Some (chr 11)
  else if Ascii.eqb c backslash then Some backslash
  else None.

(** Index of the first [c] in [s]. *)
Fixpoint find_char (c : ascii) (s : string) : option nat :=
  match s with
  | "" => None
  | String d s' => if Ascii.eqb d c then Some 0 else S <$> find_char c s'
  end.

Fixpoint all_zero (s : string) : bool :=
  match s with
  | "" => true
  | String c s' => Ascii.eqb c "0" && all_zero s'
  end.

(** [escape s] decodes the escape whose backslash is followed by [s]: the
    items it stands for and how many characters of [s] it takes, or [None]
    where [parse_template] raises. *)
Definition escape (s : string) : option (list item * nat) :=
  match s with
  | "" => None
  | String d r =>
      if Ascii.eqb d "g" then
        match r with
        | String lt name_etc =>
            if Ascii.eqb lt "<" then
              match find_char ">" name_etc with
              | Some n =>
                  if (0 <? n)%nat && all_zero (str_take n name_etc)
                  then Some ([Whole], 3 + n) else None
              | None => None
              end
            else None
        | "" => None
        end
      else if Ascii.eqb d "0" then
        match r with
        | String e r2 =>
            if is_octdigit e then
              match r2 with
              | String f _ =>
                  if is_octdigit f
                  then Some ([Lit (chr (digit_val e * 8 + digit_val f))], 3)
                  else Some ([Lit (chr (digit_val e))], 2)
              | "" => Some ([Lit (chr (digit_val e))], 2)
              end
            else Some ([Lit (chr 0)], 1)
        | "" => Some ([Lit (chr 0)], 1)
        end
      else if is_digit d then
        match r with
        | String e (String f _) =>
            if is_octdigit d && is_octdigit e && is_octdigit f then
              let v := digit_val d * 64 + digit_val e * 8 + digit_val f in
              if (255 <? v)%nat then None else Some ([Lit (chr v)], 3)
            else None
        | _ => None
        end
      else
        match escapes d with
        | Some x => Some ([Lit x], 1)
        | None =>
            if is_ascii_letter d then None
            else Some ([Lit backslash; Lit d], 1)
        end
  end.

(** [parse_from skip s]: the scan of [parse_template]; [skip] counts the
    characters of the current escape still to be passed over. *)
Fixpoint parse_from (skip : nat) (s : string) : option template :=
  match s with
  | "" => Some []
  | String c s' =>
      match skip with
      | S k => parse_from k s'
      | O =>
          if Ascii.eqb c backslash then
            match escape s' with
            | Some (items, n) => (items ++.) <$> parse_from n s'
            | None => None
            end
          else (Lit c ::.) <$> parse_from 0 s'
      end
  end.

Definition parse_template (repl : string) : option template :=
  parse_from 0 repl.

(** [expand t m]: the text a template stands for at a match [m]. *)
Fixpoint expand (t : template) (m : string) : string :=
  match t with
  | [] => ""
  | Lit c :: t' => String c (expand t' m)
  | Whole :: t' => m +:+ expand t' m
  end.

(** Length of the match of [fill=Q[^Q]*Q] at the start of [s]: the text
    starts with [fill=Q] and a second quote follows; the greedy class stops
    at the first one. *)
Definition match_fill (s : string) : option nat :=
  if startswith ("fill=" +:+ q) s
  then (fun n => 7 + n) <$> find_char dquote (str_drop 6 s)
  else None.

(** [sub_from t skip s]: the scan of [re.sub] for this pattern, leftmost
    match first, matches not overlapping; [skip] counts the characters of
    the current match still to be passed over. *)
Fixpoint sub_from (t : template) (skip : nat) (s : string) : string :=
  match s with
  | "" => ""
  | String c s' =>
      match skip with
      | S k => sub_from t k s'
      | O =>
          match match_fill s with
          | Some n => expand t (str_take n s) +:+ sub_from t (n - 1) s'
          | None => String c (sub_from t 0 s')
          end
      end
  end.

(** [sub_fill repl s] is [re.sub(r'fill=Q[^Q]*Q', repl, s)]; [None] stands
    for [re.error]. *)
Definition sub_fill (repl s : string) : option string :=
  t ← parse_template repl; Some (sub_from t 0 s).

End Re.

(** ** Exceptions and the file store *)

(** The result of running Python code: a value, or a raised exception.  The
    handlers of the program are all [except Exception], so the class of the
    exception is not kept. *)
Inductive outcome (A : Type) : Type :=
  | Ok (a : A)
  | Raise.
Arguments Ok {A} a.
Arguments Raise {A}.

(** What a path names: a regular file with its text and whether it can be
    opened for reading and for writing, or a directory with the names
    [os.listdir] gives, in that order. *)
Inductive node : Type :=
  | File (text : string) (readable writable : bool)
  | Dir (entries : list string).

(** Code that reads and writes a state [S] and may raise; the state reached
    when an exception is raised is kept, as in Python. *)
Definition M (S A : Type) : Type := S → outcome A * S.

Definition ret {S A} (a : A) : M S A := λ σ, (Ok a, σ).
Definition raise {S A} : M S A := λ σ, (Raise, σ).
Definition bind {S A B} (m : M S A) (k : A → M S B) : M S B :=
  λ σ, match m σ with
       | (Ok a, σ') => k a σ'
       | (Raise, σ') => (Raise, σ')
       end.

(** A computation that raises where [o] is [None]. *)
Definition from_option {S A} (o : option A) : M S A :=
  match o with
  | Some a => ret a
  | None => raise
  end.

(** [try: m except Exception: h]. *)
Definition try_except {S A} (m h : M S A) : M S A :=
  λ σ, match m σ with
       | (Ok a, σ') => (Ok a, σ')
       | (Raise, σ') => h σ'
       end.

Declare Scope py_scope.
Delimit Scope py_scope with py.
Notation "x <- m ;; k" := (bind m (λ x, k))
  (at level 100, m at next level, right associativity) : py_scope.
Notation "m ;; k" := (bind m (λ _, k))
  (at level 100, right associativity) : py_scope.

(** [for x in l: body x]. *)
Fixpoint for_each {S A} (l : list A) (body : A → M S unit) : M S unit :=
  match l with
  | [] => ret tt
  | x :: l' => (body x ;; for_each l' body)%py
  end.

Module Os.
Import Str.

(** [posixpath.join(a, *p)]. *)
Definition join_step (path b : string) : string :=
  if startswith "/" b then b
  else if String.eqb path "" || endswith "/" path then path +:+ b
  else path +:+ "/" +:+ b.

Definition path_join (a : string) (p : list string) : string :=
  foldl join_step a p.

(** [os.path.exists(p)]. *)
Definition path_exists (p : string) : M (gmap string node) bool :=
  λ σ, (Ok (bool_decide (is_Some (σ !! p))), σ).

(** [with open(p, 'r') as f: f.read()]. *)
Definition read_text (p : string) : M (gmap string node) string :=
  λ σ, match σ !! p with
       | Some (File text true _) => (Ok text, σ)
       | _ => (Raise, σ)
       end.

(** [with open(p, 'w') as f: f.write(text)]: the file is replaced in full;
    a path that names nothing gets a new file. *)
Definition write_text (p text : string) : M (gmap string node) unit :=
  λ σ, match σ !! p with
       | Some (File _ r true) => (Ok tt, <[p := File text r true]> σ)
       | None => (Ok tt, <[p := File text true true]> σ)
       | _ => (Raise, σ)
       end.

(** [os.listdir(p)]. *)
Definition listdir (p : string) : M (gmap string node) (list string) :=
  λ σ, match σ !! p with
       | Some (Dir entries) => (Ok entries, σ)
       | _ => (Raise, σ)
       end.

End Os.

(** ** svg_helper.py *)

Module SvgHelper.
Import Str.

(** The f-string [fill=Q{color}Q]. *)
Definition fill_attr (color : string) : string :=
  "fill=" +:+ q +:+ color +:+ q.

(** Lines 35 to 38: the text that replaces a document holding an svg tag,
    or [None] where [re.sub] raises [re.error]. *)
Definition recolored (color svg_content : string) : option string :=
  if negb (str_in "fill=" svg_content)
  then Some (replace "<svg" ("<svg " +:+ fill_attr color) svg_content)
  else Re.sub_fill (fill_attr color) svg_content.

Definition modify_svg_color (svg_path color : string) : M (gmap string node) bool :=
  try_except
    (ex <- Os.path_exists svg_path ;;
     if negb ex then ret false
     else
       svg_content <- Os.read_text svg_path ;;
       if str_in "<svg" svg_content then
         svg_content' <- from_option (recolored color svg_content) ;;
         Os.write_text svg_path svg_content' ;;
         ret true
       else ret false)%py
    (ret false).

Definition update_svg_colors (color base_dir : string) : M (gmap string node) unit :=
  let images_dir := Os.path_join base_dir ["images"] in
  let icons_dir := Os.path_join images_dir ["icons"] in
  (modify_svg_color (Os.path_join images_dir ["icon.svg"]) color ;;
   try_except
     (svg_files <- Os.listdir icons_dir ;;
      for_each svg_files (λ svg_file,
        if endswith ".svg" svg_file
        then modify_svg_color (Os.path_join icons_dir [svg_file]) color ;; ret tt
        else ret tt))
     (ret tt))%py.

End SvgHelper.

(** ** main.py *)

Module Main.
Import Str.

(** A value of the catalog, the dictionary loaded from [fontawesome.json];
    a key that is absent is [None].  The key [id] is the field [icon_id]. *)
Record icon_data : Type := {
  icon_id : option string;
  styles : option (list string);
  unicode : option string;
  search_terms : option (list string)
}.

(** The catalog in its iteration order, which for a Python dictionary is
    the order of insertion. *)
Definition catalog : Type := list (string * icon_data).

(** What the extension object holds.  [max_results] is assigned by
    [PreferencesEventListener.on_event] from the preference of that name,
    with default 10. *)
Record extension : Type := {
  copy_format : string;
  icon_color : string;
  max_results : Z;
  icons_data : catalog
}.

(** [list.sort(key=...)] is stable: [insert_by] puts an element before the
    first one whose key is not smaller, and [sort_by] inserts from the
    right. *)
Fixpoint insert_by {A} (key : A → nat) (x : A) (l : list A) : list A :=
  match l with
  | [] => [x]
  | y :: l' =>
      if (key x <=? key y)%nat then x :: l else y :: insert_by key x l'
  end.

Definition sort_by {A} (key : A → nat) (l : list A) : list A :=
  foldr (insert_by key) [] l.

(** The test of the loop of [_search_icons], for a lower-cased [query]. *)
Definition is_match (query : string) (icon : string * icon_data) : bool :=
  str_in query (lower icon.1) ||
  existsb (λ tag, str_in query (lower tag)) (default [] (search_terms icon.2)).

(** The sort key of [_search_icons], for a lower-cased [query]. *)
Definition relevance (query : string) (x : string * icon_data) : nat :=
  if String.eqb (lower x.1) query then 0
  else if startswith query (lower x.1) then 1
  else if str_in query (lower x.1) then 2
  else 3.

Definition _search_icons (query : string) (icons_data : catalog)
  : list (string * icon_data) :=
  let query := lower query in
  let matched_icons := List.filter (is_match query) icons_data in
  let matched_icons := sort_by (relevance query) matched_icons in
  take 10 matched_icons.

(** The value of [matched_icons] in [KeywordQueryEventListener.on_event],
    given [event.get_argument()]; [None] when the handler returns the
    instructions item without searching. *)
Definition on_event_matched_icons (argument : option string) (ext : extension)
  : option (list (string * icon_data)) :=
  let query := default "" argument in
  if String.eqb query "" then None
  else Some (_search_icons query (icons_data ext)).

(** The arguments of [get_copy_content], which are the key of its cache. *)
Record args : Type := {
  format_type : string;
  icon_name : string;
  icon_ident : string;
  unicode_value : string;
  style : string;
  base_dir : string
}.

#[global] Instance args_eq_dec : EqDecision args.
Proof. solve_decision. Defined.

Definition style_short (style : string) : string :=
  if String.eqb style "solid" then "s"
  else if String.eqb style "regular" then "r" else "b".

(** The f-string [fa{style_short} fa-{icon_name}]. *)
Definition class_string (a : args) : string :=
  "fa" +:+ style_short (style a) +:+ " fa-" +:+ icon_name a.

(** The f-string [<i class=Q{class}Q></i>]. *)
Definition html_snippet (a : args) : string :=
  "<i class=" +:+ q +:+ class_string a +:+ q +:+ "></i>".

Definition svg_path (a : args) : string :=
  Os.path_join (base_dir a) ["images"; "icons"; icon_ident a +:+ ".svg"].

(** The body of [get_copy_content], the function under the decorator. *)
Definition get_copy_content_wrapped (a : args) : M (gmap string node) string :=
  if String.eqb (format_type a) "html" then ret (html_snippet a)
  else if String.eqb (format_type a) "class" then ret (class_string a)
  else if String.eqb (format_type a) "unicode" then
    ret (if String.eqb (unicode_value a) "" then class_string a
         else "&#" +:+ unicode_value a +:+ ";")
  else if String.eqb (format_type a) "svg" then
    try_except
      (ex <- Os.path_exists (svg_path a) ;;
       if ex then Os.read_text (svg_path a) else ret (html_snippet a))%py
      (ret (html_snippet a))
  else ret (html_snippet a).

(** [functools.lru_cache(maxsize)]: the cache lists its entries from the
    most to the least recently used.  A hit moves the entry to the front and
    does not call the function; a miss calls it, stores the result at the
    front and drops the entries beyond [maxsize]; a call that raises stores
    nothing. *)
Definition cache_lookup {K V} `{EqDecision K} (k : K) (c : list (K * V))
  : option V :=
  snd <$> List.find (λ e, bool_decide (e.1 = k)) c.

Definition cache_remove {K V} `{EqDecision K} (k : K) (c : list (K * V))
  : list (K * V) :=
  List.filter (λ e, negb (bool_decide (e.1 = k))) c.

Definition lru_cache {K V S} `{EqDecision K} (maxsize : nat) (f : K → M S V)
  (k : K) : M (list (K * V) * S) V :=
  λ '(c, σ),
    match cache_lookup k c with
    | Some v => (Ok v, ((k, v) :: cache_remove k c, σ))
    | None =>
        match f k σ with
        | (Ok v, σ') => (Ok v, (take maxsize ((k, v) :: c), σ'))
        | (Raise, σ') => (Raise, (c, σ'))
        end
    end.

Definition get_copy_content
  : args → M (list (args * string) * gmap string node) string :=
  lru_cache 64 get_copy_content_wrapped.

End Main.

(** ** Notions the statements use *)

Module Props.
Import Str.

(** [c] occurs in [s]. *)
Fixpoint has_char (c : ascii) (s : string) : bool :=
  match s with
  | "" => false
  | String d s' => Ascii.eqb d c || has_char c s'
  end.

(** A colour that is inserted as it stands: no double quote, which would end
    the attribute value early, and no backslash, which [re.sub] would read
    as the start of an escape. *)
Definition plain (color : string) : Prop :=
  has_char dquote color = false ∧ has_char backslash color = false.

(** The pattern [fill=Q[^Q]*Q] matches somewhere in [s]. *)
Fixpoint fill_occurs (s : string) : bool :=
  bool_decide (is_Some (Re.match_fill s)) ||
  match s with
  | "" => false
  | String _ s' => fill_occurs s'
  end.

(** A document cut at its fill attributes: each pair is the text before an
    attribute and the value of the attribute; [tail] is the text after the
    last one. *)
Fixpoint with_fills (l : list (string * string)) (tail : string) : string :=
  match l with
  | [] => tail
  | (pre, v) :: l' => pre +:+ SvgHelper.fill_attr v +:+ with_fills l' tail
  end.

(** A document cut at its svg tags: each element is the text before a tag
    name, which [attr] follows; [tail] is the text after the last one. *)
Fixpoint with_tags (attr : string) (l : list string) (tail : string) : string :=
  match l with
  | [] => tail
  | pre :: l' => pre +:+ "<svg" +:+ attr +:+ with_tags attr l' tail
  end.

(** The states of the cache of [get_copy_content]: empty at start, then
    changed by calls only, whatever the file store is at each call. *)
Inductive reachable : list (Main.args * string) → Prop :=
  | reachable_start : reachable []
  | reachable_call c σ a :
      reachable c → reachable (Main.get_copy_content a (c, σ)).2.1.

(** The invariant of the cache: an entry of a format that reads no file
    holds what the body returns for its key. *)
Definition cache_sound (c : list (Main.args * string)) : Prop :=
  ∀ a v σ, Main.cache_lookup a c = Some v →
           Main.format_type a ≠ "svg" →
           (Main.get_copy_content_wrapped a σ).1 = Ok v.

(** A catalog value that holds search terms only. *)
Definition with_terms (terms : list string) : Main.icon_data :=
  {| Main.icon_id := None; Main.styles := None; Main.unicode := None;
     Main.search_terms := Some terms |}.

(** File text after a step. *)
Definition text_at (p : string) (σ : gmap string node) : option string :=
  match σ !! p with
  | Some (File text _ _) => Some text
  | _ => None
  end.

End Props.

(** ** main.py: the event listeners

    The listeners build values of the Ulauncher API: a list of result items
    for [RenderResultListAction], each with the action run on enter.
    [os.path.dirname(__file__)] is the argument [base_dir].  Python's
    [str.capitalize] leaves the code points below 256 for some of them, so
    it is an argument of the functions that call it and nothing is assumed
    of it. *)

Module Listeners.
Import Str Main.

Inductive action : Type :=
  | HideWindowAction
  | CopyToClipboardAction (text : string).

Record ExtensionResultItem : Type := {
  item_icon : string;
  item_name : string;
  item_description : string;
  item_on_enter : action
}.

(** A step on the file store, run where the cache is part of the state. *)
Definition with_files {A} (m : M (gmap string node) A)
  : M (list (args * string) * gmap string node) A :=
  λ '(c, σ), match m σ with (o, σ') => (o, (c, σ')) end.

(** [styles[0] if styles else 'solid'], with [['solid']] for a missing
    key. *)
Definition first_style (d : icon_data) : string :=
  match default ["solid"] (styles d) with
  | s :: _ => s
  | [] => "solid"
  end.

(** Lines 151 to 155: the first five search terms, joined by a comma and a
    space after a dash; nothing for a missing key or an empty list. *)
Definition search_terms_part (d : icon_data) : string :=
  match search_terms d with
  | Some (t :: ts) => " - " +:+ String.concat ", " (take 5 (t :: ts))
  | _ => ""
  end.

Definition icon_path (base_dir : string) (icon : string * icon_data) : string :=
  Os.path_join base_dir
    ["images"; "icons"; default icon.1 (icon_id icon.2) +:+ ".svg"].

Definition fallback_icon (base_dir : string) : string :=
  Os.path_join base_dir ["images"; "icon.svg"].

(** One turn of the loop of [_create_results]. *)
Definition result_item (capitalize : string → string) (base_dir : string)
    (ext : extension) (icon : string * icon_data)
  : M (list (args * string) * gmap string node) ExtensionResultItem :=
  let style := first_style icon.2 in
  (copy_content <- get_copy_content
     {| format_type := copy_format ext;
        icon_name := icon.1;
        icon_ident := default icon.1 (icon_id icon.2);
        unicode_value := default "" (unicode icon.2);
        style := style;
        base_dir := base_dir |} ;;
   let description :=
     "FontAwesome " +:+ capitalize style +:+ " icon"
       +:+ search_terms_part icon.2 in
   ex <- with_files (Os.path_exists (icon_path base_dir icon)) ;;
   ret {| item_icon := if ex then icon_path base_dir icon
                       else fallback_icon base_dir;
          item_name := icon.1;
          item_description := description;
          item_on_enter := CopyToClipboardAction copy_content |})%py.

Fixpoint _create_results (capitalize : string → string) (base_dir : string)
    (matched_icons : list (string * icon_data)) (ext : extension)
  : M (list (args * string) * gmap string node) (list ExtensionResultItem) :=
  match matched_icons with
  | [] => ret []
  | icon :: rest =>
      (item <- result_item capitalize base_dir ext icon ;;
       items <- _create_results capitalize base_dir rest ext ;;
       ret (item :: items))%py
  end.

Definition instructions_item : ExtensionResultItem :=
  {| item_icon := "images/icon.svg";
     item_name := "Search FontAwesome Icons";
     item_description := "Type to search FontAwesome icons by name";
     item_on_enter := HideWindowAction |}.

Definition no_match_item (query : string) : ExtensionResultItem :=
  {| item_icon := "images/icon.svg";
     item_name := "No matching icons found";
     item_description := "No FontAwesome icons match '" +:+ query +:+ "'";
     item_on_enter := HideWindowAction |}.

(** [KeywordQueryEventListener.on_event], given [event.get_argument()]:
    the items handed to [RenderResultListAction]. *)
Definition KeywordQueryEventListener_on_event (capitalize : string → string)
    (base_dir : string) (argument : option string) (ext : extension)
  : M (list (args * string) * gmap string node) (list ExtensionResultItem) :=
  let query := default "" argument in
  if String.eqb query "" then ret [instructions_item]
  else
    let matched_icons := _search_icons query (icons_data ext) in
    (items <- _create_results capitalize base_dir matched_icons ext ;;
     ret match items with
         | [] => [no_match_item query]
         | _ => items
         end)%py.

(** [PreferencesUpdateEventListener.on_event], given [event.id] and
    [event.new_value]: the extension object after the event. *)
Definition PreferencesUpdateEventListener_on_event (base_dir : string)
    (id new_value : string) (ext : extension)
  : M (gmap string node) extension :=
  if String.eqb id "copy_format" then
    ret {| copy_format := new_value; icon_color := icon_color ext;
           max_results := max_results ext; icons_data := icons_data ext |}
  else if String.eqb id "icon_color" then
    (SvgHelper.update_svg_colors new_value base_dir ;;
     ret {| copy_format := copy_format ext; icon_color := new_value;
            max_results := max_results ext; icons_data := icons_data ext |})%py
  else ret ext.

(** [ItemEnterEventListener.on_event]. *)
Definition ItemEnterEventListener_on_event : action := HideWindowAction.

End Listeners.

(** ** Further notions the statements use *)

Module MoreProps.
Import Str Main.

(** A node without its text: what kind of thing a path names and how it can
    be opened. *)
Definition shape (n : node) : node :=
  match n with
  | File _ r w => File "" r w
  | Dir entries => Dir entries
  end.

(** The cache after a list of calls, each with the file store it finds. *)
Fixpoint cache_after (calls : list (args * gmap string node))
    (c : list (args * string)) : list (args * string) :=
  match calls with
  | [] => c
  | (a, σ) :: calls' => cache_after calls' (get_copy_content a (c, σ)).2.1
  end.

(** The file store after the loop of [update_svg_colors] over the names
    [entries] of the icons directory. *)
Definition pass_store (color icons_dir : string) (entries : list string)
    (σ : gmap string node) : gmap string node :=
  foldl (λ σ' name,
           if endswith ".svg" name
           then (SvgHelper.modify_svg_color
                   (Os.path_join icons_dir [name]) color σ').2
           else σ')
        σ entries.

(** The arguments with which [_create_results] calls [get_copy_content]
    for an icon. *)
Definition copy_args (base_dir : string) (ext : extension)
    (icon : string * icon_data) : args :=
  {| format_type := copy_format ext;
     icon_name := icon.1;
     icon_ident := default icon.1 (icon_id icon.2);
     unicode_value := default "" (unicode icon.2);
     style := Listeners.first_style icon.2;
     base_dir := base_dir |}.

(** The item of an icon, given the string to copy and whether the asset
    file exists. *)
Definition item_of (capitalize : string → string) (base_dir : string)
    (icon : string * icon_data) (copy_content : string) (ex : bool)
  : Listeners.ExtensionResultItem :=
  {| Listeners.item_icon :=
       if ex then Listeners.icon_path base_dir icon
       else Listeners.fallback_icon base_dir;
     Listeners.item_name := icon.1;
     Listeners.item_description :=
       "FontAwesome " +:+ capitalize (Listeners.first_style icon.2)
         +:+ " icon" +:+ Listeners.search_terms_part icon.2;
     Listeners.item_on_enter := Listeners.CopyToClipboardAction copy_content |}.

(** A catalog value with its search terms cut after the fifth. *)
Definition cut_terms (d : icon_data) : icon_data :=
  {| icon_id := icon_id d; styles := styles d; unicode := unicode d;
     search_terms := take 5 <$> search_terms d |}.

End MoreProps.

(** ** Facts on strings *)

Module StrFacts.
Import Str Props.

Lemma append_nil_l (s : string) : "" +:+ s = s.
Proof. reflexivity. Qed.

Lemma append_cons (c : ascii) (a b : string) :
  String c a +:+ b = String c (a +:+ b).
Proof. reflexivity. Qed.

(** [String.append] does not unfold under [simpl]; its two equations are
    applied by rewriting. *)
Ltac app_norm := rewrite ?append_cons, ?append_nil_l.
Ltac app_norm_in H := rewrite ?append_cons, ?append_nil_l in H.

Lemma append_nil_r (s : string) : s +:+ "" = s.
Proof. induction s as [|c s IH]; app_norm; [done | by rewrite IH]. Qed.

Lemma append_assoc (a b c : string) : (a +:+ b) +:+ c = a +:+ b +:+ c.
Proof. induction a as [|x a IH]; app_norm; [done | by rewrite IH]. Qed.

Lemma len_append (a b : string) : len (a +:+ b) = len a + len b.
Proof.
  unfold len. induction a as [|x a IH]; app_norm; simpl; [done | by rewrite IH].
Qed.

Lemma startswith_nil (s : string) : startswith "" s = true.
Proof. by destruct s. Qed.

Lemma startswith_cons (a b : ascii) (p s : string) :
  startswith (String a p) (String b s) = bool_decide (a = b) && startswith p s.
Proof.
  unfold startswith. simpl. destruct (ascii_dec a b) as [->|Hne].
  - by rewrite bool_decide_eq_true_2.
  - by rewrite bool_decide_eq_false_2.
Qed.

Lemma startswith_cons_nil (a : ascii) (p : string) :
  startswith (String a p) "" = false.
Proof. done. Qed.

(** [startswith p s] holds exactly when [s] is [p] followed by some text. *)
Lemma startswith_spec (p s : string) :
  startswith p s = true ↔ ∃ r, s = p +:+ r.
Proof.
  revert s. induction p as [|a p IH]; intros s.
  - rewrite startswith_nil. split; [eauto | done].
  - destruct s as [|b s].
    + rewrite startswith_cons_nil. split; [done | intros [r Hr]; discriminate].
    + rewrite startswith_cons, andb_true_iff, bool_decide_eq_true, IH.
      split.
      * intros [-> [r ->]]. by exists r.
      * intros [r Hr]. app_norm_in Hr. injection Hr as -> ->. eauto.
Qed.

Lemma startswith_app (p r : string) : startswith p (p +:+ r) = true.
Proof. apply startswith_spec. eauto. Qed.

Lemma str_drop_app (a b : string) : str_drop (len a) (a +:+ b) = b.
Proof. induction a as [|x a IH]; app_norm; simpl; [by destruct b | done]. Qed.

Lemma str_take_app (a b : string) : str_take (len a) (a +:+ b) = a.
Proof.
  induction a as [|x a IH]; app_norm; simpl; [by destruct b | by rewrite IH].
Qed.

Lemma str_in_cons (sub : string) (c : ascii) (s : string) :
  str_in sub (String c s) = startswith sub (String c s) || str_in sub s.
Proof. done. Qed.

Lemma str_in_nil (sub : string) : str_in sub "" = startswith sub "".
Proof. change (str_in sub "") with (startswith sub "" || false). apply orb_false_r. Qed.

Lemma str_in_startswith (sub s : string) :
  startswith sub s = true → str_in sub s = true.
Proof.
  intros H. destruct s as [|c s]; [by rewrite str_in_nil|].
  by rewrite str_in_cons, H.
Qed.

(** [str_in sub s] holds exactly when [sub] lies somewhere in [s]. *)
Lemma str_in_spec (sub s : string) :
  str_in sub s = true ↔ ∃ a b, s = a +:+ sub +:+ b.
Proof.
  induction s as [|c s IH].
  - rewrite str_in_nil, startswith_spec. split.
    + intros [r Hr]. by exists "", r.
    + intros [a [b H]]. destruct a; [by exists b | discriminate].
  - rewrite str_in_cons, orb_true_iff, startswith_spec, IH. split.
    + intros [[r Hr] | [a [b Hab]]].
      * by exists "", r.
      * exists (String c a), b. app_norm. by rewrite Hab.
    + intros [a [b Hab]]. destruct a as [|x a]; app_norm_in Hab.
      * left. by exists b.
      * right. injection Hab as -> ->. eauto.
Qed.

Lemma str_in_app_r (sub a s : string) :
  str_in sub s = true → str_in sub (a +:+ s) = true.
Proof.
  rewrite !str_in_spec. intros [x [y ->]]. exists (a +:+ x), y.
  by rewrite append_assoc.
Qed.

Lemma str_in_app_l (sub s b : string) :
  str_in sub s = true → str_in sub (s +:+ b) = true.
Proof.
  rewrite !str_in_spec. intros [x [y ->]]. exists x, (y +:+ b).
  by rewrite !append_assoc.
Qed.

Lemma str_in_false_cons (sub : string) (c : ascii) (s : string) :
  str_in sub (String c s) = false →
  startswith sub (String c s) = false ∧ str_in sub s = false.
Proof. rewrite str_in_cons. apply orb_false_elim. Qed.

Lemma str_in_false_app_r (sub a s : string) :
  str_in sub (a +:+ s) = false → str_in sub s = false.
Proof.
  intros H. destruct (str_in sub s) eqn:E; [|done].
  by rewrite (str_in_app_r _ a _ E) in H.
Qed.

Lemma has_char_app (c : ascii) (a b : string) :
  has_char c (a +:+ b) = has_char c a || has_char c b.
Proof.
  induction a as [|x a IH]; app_norm; simpl; [done | by rewrite IH, orb_assoc].
Qed.

End StrFacts.

(** ** Facts on the [re] model *)

Module ReFacts.
Import Str Props StrFacts Re.

Lemma find_char_none (c : ascii) (s : string) :
  find_char c s = None ↔ has_char c s = false.
Proof.
  induction s as [|d s IH]; simpl; [done|].
  destruct (Ascii.eqb d c); simpl; [done|].
  rewrite <- IH. destruct (find_char c s); simpl; split; congruence.
Qed.

(** The first [c] of [s] is at [n] exactly when [s] is a text of length [n]
    without [c], followed by [c]. *)
Lemma find_char_some (c : ascii) (s : string) (n : nat) :
  find_char c s = Some n ↔
  ∃ v rest, s = v +:+ String c rest ∧ has_char c v = false ∧ n = len v.
Proof.
  revert n. induction s as [|d s IH]; intros n; simpl.
  - split; [done|]. intros (v & rest & H & _). destruct v; discriminate.
  - destruct (Ascii.eqb d c) eqn:E.
    + apply Ascii.eqb_eq in E as ->. split.
      * intros [= <-]. by exists "", s.
      * intros (v & rest & H & Hv & ->). destruct v as [|x v]; [done|].
        app_norm_in H. injection H as -> _. simpl in Hv.
        by rewrite Ascii.eqb_refl in Hv.
    + split.
      * destruct (find_char c s) as [k|] eqn:Ek; simpl; [|done].
        intros [= <-]. destruct (proj1 (IH k) eq_refl) as (v & rest & -> & Hv & ->).
        exists (String d v), rest. app_norm. simpl. by rewrite E, Hv.
      * intros (v & rest & H & Hv & ->). destruct v as [|x v]; app_norm_in H.
        -- injection H as -> _. by rewrite Ascii.eqb_refl in E.
        -- injection H as -> ->. simpl in Hv. apply orb_false_elim in Hv as [_ Hv].
           rewrite (proj2 (IH (len v))); [done|]. by exists v, rest.
Qed.

(** The shape of a match: [fill=Q], a value without quote, and a quote. *)
Lemma match_fill_some (s : string) (n : nat) :
  match_fill s = Some n ↔
  ∃ v rest, s = "fill=" +:+ q +:+ v +:+ q +:+ rest ∧
            has_char dquote v = false ∧ n = 7 + len v.
Proof.
  unfold match_fill. set (P := "fill=" +:+ q).
  assert (HP : ∀ x, "fill=" +:+ q +:+ x = P +:+ x)
    by (intros x; symmetry; apply append_assoc).
  setoid_rewrite HP. destruct (startswith P s) eqn:E.
  - apply startswith_spec in E as [r ->].
    replace (str_drop 6 (P +:+ r)) with r
      by (symmetry; apply (str_drop_app P r)).
    split.
    + destruct (find_char dquote r) as [k|] eqn:Ek; simpl; [|done].
      intros [= <-]. apply find_char_some in Ek as (v & rest & -> & Hv & ->).
      by exists v, rest.
    + intros (v & rest & H & Hv & ->).
      apply (inj (String.app P)) in H. subst r.
      rewrite (proj2 (find_char_some dquote _ (len v))); [done|].
      by exists v, rest.
  - split; [done|]. intros (v & rest & -> & _).
    by rewrite startswith_app in E.
Qed.

Lemma match_fill_pos (s : string) (n : nat) : match_fill s = Some n → (7 ≤ n)%nat.
Proof. rewrite match_fill_some. intros (v & rest & _ & _ & ->). lia. Qed.

(** A text with no quote has no match. *)
Lemma match_fill_no_quote (s : string) :
  has_char dquote s = false → match_fill s = None.
Proof.
  intros H. destruct (match_fill s) as [n|] eqn:E; [|done].
  apply match_fill_some in E as (v & rest & -> & _).
  rewrite !has_char_app in H. by rewrite orb_true_r in H.
Qed.

Lemma sub_from_skip (t : template) (k : nat) (s : string) :
  sub_from t k s = sub_from t 0 (str_drop k s).
Proof.
  revert k. induction s as [|c s IH]; intros [|k]; try done.
  simpl str_drop. by rewrite <- IH.
Qed.

(** The two equations of the scan. *)
Lemma sub_match (t : template) (s : string) (n : nat) :
  match_fill s = Some n →
  sub_from t 0 s = expand t (str_take n s) +:+ sub_from t 0 (str_drop n s).
Proof.
  intros H. pose proof (match_fill_pos _ _ H) as Hn.
  destruct s as [|c s]; [done|]. simpl sub_from. rewrite H.
  destruct n as [|n]; [lia|]. simpl str_drop.
  by rewrite Nat.sub_succ, Nat.sub_0_r, sub_from_skip.
Qed.

Lemma sub_no_match (t : template) (c : ascii) (s : string) :
  match_fill (String c s) = None →
  sub_from t 0 (String c s) = String c (sub_from t 0 s).
Proof. intros H. simpl sub_from. by rewrite H. Qed.

Lemma len_str_drop (n : nat) (s : string) : len (str_drop n s) = len s - n.
Proof.
  revert n. induction s as [|c s IH]; intros [|n]; try done. simpl. apply IH.
Qed.

(** Induction along the scan of [re.sub]. *)
Lemma sub_ind (P : string → Prop) :
  P "" →
  (∀ s n, match_fill s = Some n → P (str_drop n s) → P s) →
  (∀ c s, match_fill (String c s) = None → P s → P (String c s)) →
  ∀ s, P s.
Proof.
  intros Hnil Hm Hc s. remember (len s) as k eqn:Hk.
  revert s Hk. induction k as [k IH] using lt_wf_ind. intros s ->.
  destruct s as [|c s]; [done|].
  destruct (match_fill (String c s)) as [n|] eqn:E.
  - apply (Hm _ n E). pose proof (match_fill_pos _ _ E).
    eapply IH; [|done]. rewrite len_str_drop. unfold len. simpl. lia.
  - apply Hc; [done|]. eapply IH; [|done]. unfold len. simpl. lia.
Qed.

(** No match anywhere: [re.sub] returns the text as it is. *)
Lemma sub_from_no_occurrence (t : template) (s : string) :
  fill_occurs s = false → sub_from t 0 s = s.
Proof.
  induction s as [|c s IH]; [done|]. simpl fill_occurs.
  intros [H1 H2]%orb_false_elim. apply bool_decide_eq_false in H1.
  rewrite sub_no_match, IH; [done..|].
  destruct (match_fill (String c s)); [|done]. destruct H1. eauto.
Qed.

Lemma fill_occurs_no_quote (s : string) :
  has_char dquote s = false → fill_occurs s = false.
Proof.
  induction s as [|c s IH]; intros H.
  - done.
  - simpl fill_occurs. rewrite (match_fill_no_quote _ H).
    simpl in H. apply orb_false_elim in H as [_ H]. by rewrite IH.
Qed.

End ReFacts.

(** ** Facts on the recolored text *)

Module RecolorFacts.
Import Str Props StrFacts Re ReFacts SvgHelper.

(** A replacement without backslash is a literal template. *)
Lemma parse_from_literal (r : string) :
  has_char backslash r = false →
  ∃ t, parse_from 0 r = Some t ∧ ∀ m, expand t m = r.
Proof.
  induction r as [|c r IH]; simpl.
  - by exists [].
  - intros [Hc Hr]%orb_false_elim. destruct (IH Hr) as (t & Ht & Hexp).
    rewrite Hc, Ht. exists (Lit c :: t). split; [done|].
    intros m. simpl. by rewrite Hexp.
Qed.

Lemma parse_template_plain (color : string) :
  has_char backslash color = false →
  ∃ t, parse_template (fill_attr color) = Some t ∧
       ∀ m, expand t m = fill_attr color.
Proof.
  intros H. apply parse_from_literal. unfold fill_attr.
  rewrite !has_char_app, H. done.
Qed.

Lemma match_fill_head (d : ascii) (s : string) :
  d ≠ "f"%char → match_fill (String d s) = None.
Proof.
  intros Hd. unfold match_fill. app_norm. rewrite startswith_cons.
  by rewrite bool_decide_eq_false_2.
Qed.

Section Literal.
(** A colour without quote, and a template that stands for the
    attribute text itself. *)
Variables (color : string) (t : template).
Hypothesis Hquote : has_char dquote color = false.
Hypothesis Hlit : ∀ m, expand t m = fill_attr color.

Let F := fill_attr color.
Let sub := sub_from t 0.

Lemma match_fill_attr (x : string) :
  match_fill (F +:+ x) = Some (len F).
Proof.
  apply match_fill_some. exists color, x. split_and!; [|done|].
  - unfold F, fill_attr. by rewrite !append_assoc.
  - unfold F, fill_attr. rewrite !len_append. unfold len. simpl. lia.
Qed.

Lemma sub_attr (x : string) : sub (F +:+ x) = F +:+ sub x.
Proof.
  unfold sub. rewrite (sub_match t _ _ (match_fill_attr x)).
  by rewrite Hlit, str_drop_app.
Qed.

Lemma sub_at_match (s : string) (n : nat) :
  match_fill s = Some n → sub s = F +:+ sub (str_drop n s).
Proof. intros H. unfold sub. by rewrite (sub_match t s n H), Hlit. Qed.

(** A first character of the result that is not an f was copied. *)
Lemma sub_head (s : string) (d : ascii) (u : string) :
  sub s = String d u → d ≠ "f"%char →
  ∃ s', s = String d s' ∧ sub s' = u.
Proof.
  intros H Hd. destruct s as [|c s]; [done|].
  destruct (match_fill (String c s)) as [n|] eqn:E.
  - rewrite (sub_at_match _ _ E) in H. unfold F, fill_attr in H.
    app_norm_in H. by injection H as <- _.
  - unfold sub in H. rewrite (sub_no_match t _ _ E) in H.
    injection H as -> <-. eauto.
Qed.

(** Copying a character in front of a rewritten text starts no match. *)
Lemma match_fill_sub (c : ascii) (s : string) :
  match_fill (String c s) = None → match_fill (String c (sub s)) = None.
Proof.
  intros Hs. destruct (match_fill (String c (sub s))) as [n|] eqn:E; [|done].
  exfalso. apply match_fill_some in E as (v & rest & E & Hv & _).
  unfold q in E. app_norm_in E. injection E as -> E.
  apply sub_head in E as (s1 & -> & E); [|done].
  apply sub_head in E as (s2 & -> & E); [|done].
  apply sub_head in E as (s3 & -> & E); [|done].
  apply sub_head in E as (s4 & -> & E); [|done].
  apply sub_head in E as (s5 & -> & E); [|done].
  unfold match_fill in Hs.
  change (String "f" (String "i" (String "l" (String "l" (String "="
    (String dquote s5)))))) with (("fill=" +:+ q) +:+ s5) in Hs.
  rewrite startswith_app in Hs.
  replace (str_drop 6 (("fill=" +:+ q) +:+ s5)) with s5 in Hs
    by (symmetry; apply (str_drop_app ("fill=" +:+ q) s5)).
  destruct (find_char dquote s5) eqn:Ef; [done|].
  apply find_char_none in Ef.
  unfold sub in E.
  rewrite (sub_from_no_occurrence t s5 (fill_occurs_no_quote _ Ef)) in E.
  rewrite E, !has_char_app in Ef. simpl in Ef.
  by rewrite orb_true_r in Ef.
Qed.

(** [re.sub] with a literal attribute is idempotent. *)
Lemma sub_idempotent (s : string) : sub (sub s) = sub s.
Proof.
  induction s as [|s n Hm IH|c s Hm IH] using sub_ind.
  - done.
  - by rewrite (sub_at_match _ _ Hm), sub_attr, IH.
  - unfold sub at 2 3. rewrite (sub_no_match t _ _ Hm). fold sub.
    unfold sub at 1. rewrite (sub_no_match t _ _ (match_fill_sub _ _ Hm)).
    fold sub. by rewrite IH.
Qed.

(** The attribute name survives [re.sub]. *)
Lemma sub_keeps_fill (s : string) :
  str_in "fill=" s = true → str_in "fill=" (sub s) = true.
Proof.
  induction s as [|s n Hm IH|c s Hm IH] using sub_ind.
  - done.
  - intros _. rewrite (sub_at_match _ _ Hm). apply str_in_startswith.
    unfold F, fill_attr. rewrite append_assoc. apply startswith_app.
  - rewrite str_in_cons. intros [H|H]%orb_true_iff.
    + apply startswith_spec in H as [r Hr]. app_norm_in Hr.
      injection Hr as -> ->. apply str_in_startswith.
      unfold sub. rewrite (sub_no_match t _ _ Hm).
      rewrite !sub_no_match by (by apply match_fill_head).
      apply (startswith_app "fill=").
    + unfold sub. rewrite (sub_no_match t _ _ Hm), str_in_cons.
      fold sub. by rewrite (IH H), orb_true_r.
Qed.

End Literal.

End RecolorFacts.

(** ** Facts on the insertion of the attribute *)

Module InsertFacts.
Import Str Props StrFacts Re ReFacts SvgHelper RecolorFacts.

(** A prefix of [a +:+ b] lies in [a], or [a] is a proper part of it. *)
Lemma startswith_app_cases (p a b : string) :
  startswith p (a +:+ b) = true →
  startswith p a = true ∨ ∃ p', p = a +:+ p' ∧ startswith p' b = true.
Proof.
  revert a. induction p as [|x p IH]; intros a H.
  - left. apply startswith_nil.
  - destruct a as [|y a]; app_norm_in H.
    + right. by exists (String x p).
    + rewrite startswith_cons in H. apply andb_true_iff in H as [Hxy H].
      apply bool_decide_eq_true in Hxy as ->.
      destruct (IH _ H) as [Ha | (p' & -> & Hp')].
      * left. rewrite startswith_cons, Ha. by rewrite bool_decide_eq_true_2.
      * right. by exists p'.
Qed.

Lemma replace_from_skip (old new : string) (k : nat) (s : string) :
  replace_from old new k s = replace_from old new 0 (str_drop k s).
Proof.
  revert k. induction s as [|c s IH]; intros [|k]; try done.
  simpl str_drop. by rewrite <- IH.
Qed.

Lemma replace_from_cons (old new : string) (c : ascii) (s : string) :
  replace_from old new 0 (String c s) =
  if startswith old (String c s)
  then new +:+ replace_from old new (len old - 1) s
  else String c (replace_from old new 0 s).
Proof. reflexivity. Qed.

Section Insert.
Variable new : string.
Let ins := replace "<svg" new.

Lemma ins_match (rest : string) : ins ("<svg" +:+ rest) = new +:+ ins rest.
Proof.
  unfold ins, replace. app_norm. simpl replace_from.
  by rewrite startswith_nil.
Qed.

Lemma ins_no_match (c : ascii) (s : string) :
  startswith "<svg" (String c s) = false →
  ins (String c s) = String c (ins s).
Proof. intros H. unfold ins, replace. by rewrite replace_from_cons, H. Qed.

(** The tag name does not start inside [pre] when [pre] is free of it. *)
Lemma no_tag_across (c : ascii) (pre rest : string) :
  str_in "<svg" (String c pre) = false →
  startswith "<svg" (String c (pre +:+ "<svg" +:+ rest)) = false.
Proof.
  intros H. apply str_in_false_cons in H as [H _].
  rewrite <- append_cons.
  destruct (startswith "<svg" (String c pre +:+ _)) eqn:E; [|done].
  apply startswith_app_cases in E as [E | (p' & E & Hp')]; [congruence|].
  exfalso. destruct pre as [|c1 [|c2 [|c3 pre]]]; app_norm_in E;
    injection E as <-; intros; subst; try done.
  destruct pre; discriminate.
Qed.

Lemma ins_piece (pre rest : string) :
  str_in "<svg" pre = false →
  ins (pre +:+ "<svg" +:+ rest) = pre +:+ new +:+ ins rest.
Proof.
  induction pre as [|c pre IH]; intros H.
  - apply ins_match.
  - rewrite !(append_cons c pre), ins_no_match by (by apply no_tag_across).
    rewrite IH; [done|]. by apply str_in_false_cons in H as [_ H].
Qed.

Lemma ins_no_tag (s : string) : str_in "<svg" s = false → ins s = s.
Proof.
  induction s as [|c s IH]; [done|].
  intros [H1 H2]%str_in_false_cons. by rewrite ins_no_match, IH.
Qed.

(** The document cut at its tags: [new] is put after each tag name. *)
Lemma ins_with_tags (attr : string) (l : list string) (tail : string) :
  new = "<svg" +:+ attr →
  Forall (λ pre, str_in "<svg" pre = false) l →
  str_in "<svg" tail = false →
  ins (with_tags "" l tail) = with_tags attr l tail.
Proof.
  intros Hnew Hl Htail. induction Hl as [|pre l Hpre Hl IH]; simpl.
  - by apply ins_no_tag.
  - rewrite append_nil_l, ins_piece, IH, Hnew by done.
    by rewrite !append_assoc.
Qed.

End Insert.

End InsertFacts.

(** ** Facts on [re.sub] after the insertion, and on documents cut at their
       attributes *)

Module PieceFacts.
Import Str Props StrFacts Re ReFacts SvgHelper RecolorFacts InsertFacts.

(** Induction along the scan of [replace] for the tag name. *)
Lemma ins_ind (P : string → Prop) :
  P "" →
  (∀ rest, P rest → P ("<svg" +:+ rest)) →
  (∀ c s, startswith "<svg" (String c s) = false → P s → P (String c s)) →
  ∀ s, P s.
Proof.
  intros Hnil Hm Hc s. remember (len s) as k eqn:Hk.
  revert s Hk. induction k as [k IH] using lt_wf_ind. intros s ->.
  destruct s as [|c s]; [done|].
  destruct (startswith "<svg" (String c s)) eqn:E.
  - apply startswith_spec in E as [r Hr]. rewrite Hr. apply Hm.
    eapply IH; [|done]. rewrite Hr, len_append. unfold len. simpl. lia.
  - apply Hc; [done|]. eapply IH; [|done]. unfold len. simpl. lia.
Qed.

Lemma match_fill_attr_at (v x : string) :
  has_char dquote v = false →
  match_fill (fill_attr v +:+ x) = Some (len (fill_attr v)).
Proof. intros Hv. by apply match_fill_attr. Qed.

(** The pattern does not start inside [pre] when [pre] is free of the
    opening [fill=Q]. *)
Lemma no_fill_across (c : ascii) (pre v rest : string) :
  str_in ("fill=" +:+ q) (String c pre) = false →
  match_fill (String c (pre +:+ fill_attr v +:+ rest)) = None.
Proof.
  intros H. apply str_in_false_cons in H as [H _].
  unfold match_fill. rewrite <- append_cons.
  destruct (startswith _ (String c pre +:+ _)) eqn:E; [|done].
  apply startswith_app_cases in E as [E | (p' & E & Hp')]; [congruence|].
  exfalso. unfold fill_attr, q in *.
  destruct pre as [|c1 [|c2 [|c3 [|c4 [|c5 pre]]]]]; app_norm_in E;
    injection E as <-; intros; subst; app_norm_in Hp';
    try (rewrite startswith_cons in Hp'; done).
  destruct pre; [done | discriminate].
Qed.

Section Literal.
Variables (color : string) (t : template).
Hypothesis Hlit : ∀ m, expand t m = fill_attr color.

Let F := fill_attr color.
Let sub := sub_from t 0.
Let ins := replace "<svg" ("<svg " +:+ F).

(** One attribute of the document: it is replaced, the text before it is
    kept, and the scan goes on after it. *)
Lemma sub_piece (pre v rest : string) :
  str_in ("fill=" +:+ q) pre = false →
  has_char dquote v = false →
  sub (pre +:+ fill_attr v +:+ rest) = pre +:+ F +:+ sub rest.
Proof.
  intros Hpre Hv. induction pre as [|c pre IH].
  - rewrite !append_nil_l. unfold sub.
    rewrite (sub_match t _ _ (match_fill_attr_at v rest Hv)).
    by rewrite Hlit, str_drop_app.
  - rewrite !(append_cons c pre). unfold sub.
    rewrite (sub_no_match t) by (by apply no_fill_across).
    fold sub. rewrite IH; [done|].
    by apply str_in_false_cons in Hpre as [_ Hpre].
Qed.

(** The document cut at its attributes: every value becomes the colour. *)
Lemma sub_with_fills (l : list (string * string)) (tail : string) :
  Forall (λ pv, str_in ("fill=" +:+ q) pv.1 = false ∧
                has_char dquote pv.2 = false) l →
  fill_occurs tail = false →
  sub (with_fills l tail) = with_fills (map (λ pv, (pv.1, color)) l) tail.
Proof.
  intros Hl Htail. induction Hl as [|[pre v] l [Hpre Hv] Hl IH]; simpl.
  - by apply sub_from_no_occurrence.
  - by rewrite sub_piece, IH.
Qed.

(** A first character of the result that is not the tag opener was
    copied. *)
Lemma ins_head (s : string) (d : ascii) (u : string) :
  ins s = String d u → d ≠ "<"%char →
  ∃ s', s = String d s' ∧ ins s' = u.
Proof.
  intros H Hd. destruct s as [|c s]; [done|].
  destruct (startswith "<svg" (String c s)) eqn:E.
  - apply startswith_spec in E as [r Hr]. rewrite Hr in H.
    unfold ins in H. rewrite ins_match in H. app_norm_in H.
    by injection H as <- _.
  - unfold ins in H. rewrite (ins_no_match _ _ _ E) in H.
    injection H as -> <-. eauto.
Qed.

Lemma match_fill_ins (c : ascii) (s : string) :
  str_in "fill=" (String c s) = false →
  match_fill (String c (ins s)) = None.
Proof.
  intros Hs. destruct (match_fill (String c (ins s))) as [n|] eqn:E; [|done].
  exfalso. apply match_fill_some in E as (v & rest & E & _).
  unfold q in E. app_norm_in E. injection E as -> E.
  apply ins_head in E as (s1 & -> & E); [|done].
  apply ins_head in E as (s2 & -> & E); [|done].
  apply ins_head in E as (s3 & -> & E); [|done].
  apply ins_head in E as (s4 & -> & E); [|done].
  apply str_in_false_cons in Hs as [Hs _].
  enough (true = false) by done. rewrite <- Hs. symmetry.
  exact (startswith_app "fill=" s4).
Qed.

Hypothesis Hquote : has_char dquote color = false.

(** After the insertion, [re.sub] with the same colour changes nothing. *)
Lemma sub_ins (s : string) : str_in "fill=" s = false → sub (ins s) = ins s.
Proof.
  induction s as [|rest IH|c s Hm IH] using ins_ind; intros Hs.
  - done.
  - unfold ins. rewrite ins_match. fold ins.
    rewrite append_assoc. app_norm. unfold sub.
    rewrite !sub_no_match by (by apply match_fill_head).
    fold sub. unfold F. rewrite (sub_attr color t Hquote Hlit).
    fold sub F. rewrite IH; [done|]. by apply str_in_false_app_r in Hs.
  - unfold ins. rewrite (ins_no_match _ _ _ Hm). fold ins. unfold sub.
    rewrite (sub_no_match t) by (by apply match_fill_ins). fold sub.
    rewrite IH; [done|]. by apply str_in_false_cons in Hs as [_ Hs].
Qed.

(** The insertion leaves the attribute name in a document with a tag. *)
Lemma ins_has_fill (s : string) :
  str_in "<svg" s = true → str_in "fill=" (ins s) = true.
Proof.
  induction s as [|rest IH|c s Hm IH] using ins_ind; intros Hs.
  - done.
  - unfold ins. rewrite ins_match. apply str_in_spec.
    exists "<svg ", (String dquote color +:+ q +:+ ins rest).
    unfold F, fill_attr, q, ins. by rewrite !append_assoc.
  - unfold ins. rewrite (ins_no_match _ _ _ Hm). fold ins.
    rewrite str_in_cons in Hs. rewrite Hm in Hs. simpl in Hs.
    rewrite str_in_cons, (IH Hs). apply orb_true_r.
Qed.

End Literal.

End PieceFacts.

(** ** Facts on [modify_svg_color] *)

Module ModifyFacts.
Import Str Props StrFacts Re ReFacts SvgHelper RecolorFacts InsertFacts PieceFacts.

(** What one call does, by the node at the path. *)
Lemma modify_unfold (p color : string) (σ : gmap string node) :
  modify_svg_color p color σ =
  match σ !! p with
  | Some (File text true w) =>
      if str_in "<svg" text then
        match recolored color text with
        | Some text' =>
            if w then (Ok true, <[p := File text' true true]> σ)
            else (Ok false, σ)
        | None => (Ok false, σ)
        end
      else (Ok false, σ)
  | _ => (Ok false, σ)
  end.
Proof.
  unfold modify_svg_color, try_except, bind, Os.path_exists, Os.read_text,
    Os.write_text, from_option, ret, raise.
  destruct (σ !! p) as [[text [] w|entries]|] eqn:E; simpl; rewrite ?E; try done.
  destruct (str_in "<svg" text); simpl; [|done].
  destruct (recolored color text) as [text'|]; simpl; [|done].
  rewrite E. by destruct w.
Qed.

(** No exception leaves [modify_svg_color]. *)
Lemma modify_returns (p color : string) (σ : gmap string node) :
  ∃ b, (modify_svg_color p color σ).1 = Ok b.
Proof.
  rewrite modify_unfold.
  destruct (σ !! p) as [[text [] w|entries]|]; eauto.
  destruct (str_in "<svg" text); eauto.
  destruct (recolored color text); eauto. destruct w; eauto.
Qed.

(** Only the file at the path can change. *)
Lemma modify_frame (p p' color : string) (σ : gmap string node) :
  p' ≠ p → (modify_svg_color p color σ).2 !! p' = σ !! p'.
Proof.
  intros Hne. rewrite modify_unfold.
  destruct (σ !! p) as [[text [] w|entries]|]; try done.
  destruct (str_in "<svg" text); [|done].
  destruct (recolored color text); [|done].
  destruct w; [|done]. simpl. by rewrite lookup_insert_ne.
Qed.

(** A directory is never changed. *)
Lemma modify_keeps_dir (p d color : string) (σ : gmap string node) entries :
  σ !! d = Some (Dir entries) →
  (modify_svg_color p color σ).2 !! d = Some (Dir entries).
Proof.
  intros Hd. destruct (decide (d = p)) as [->|Hne].
  - by rewrite modify_unfold, Hd.
  - by rewrite modify_frame.
Qed.

(** What becomes of the file depends on that file only. *)
Lemma modify_local (p color : string) (σ1 σ2 : gmap string node) :
  σ1 !! p = σ2 !! p →
  (modify_svg_color p color σ1).2 !! p = (modify_svg_color p color σ2).2 !! p.
Proof.
  intros H. rewrite !modify_unfold, <- H.
  destruct (σ1 !! p) as [[text [] w|entries]|] eqn:E; simpl; try congruence.
  destruct (str_in "<svg" text); simpl; [|congruence].
  destruct (recolored color text); simpl; [|congruence].
  destruct w; simpl; [|congruence]. by rewrite !lookup_insert_eq.
Qed.

(** For a colour without backslash, [re.sub] does not raise and puts the
    attribute text itself. *)
Lemma sub_fill_plain (color : string) :
  has_char backslash color = false →
  ∃ t, (∀ s, sub_fill (fill_attr color) s = Some (sub_from t 0 s)) ∧
       ∀ m, expand t m = fill_attr color.
Proof.
  intros Hb. destruct (parse_template_plain color Hb) as (t & Ht & Hlit).
  exists t. split; [|done]. intros s. unfold sub_fill. by rewrite Ht.
Qed.

Lemma recolored_insert (color text : string) :
  str_in "fill=" text = false →
  recolored color text =
  Some (replace "<svg" ("<svg " +:+ fill_attr color) text).
Proof. intros H. unfold recolored. by rewrite H. Qed.

Lemma recolored_sub (color text : string) :
  str_in "fill=" text = true →
  recolored color text = sub_fill (fill_attr color) text.
Proof. intros H. unfold recolored. by rewrite H. Qed.

(** The text written by a first call is left as it is by [recolored], for a
    plain colour. *)
Lemma recolored_fixed (color text text' : string) :
  plain color →
  str_in "<svg" text = true →
  recolored color text = Some text' →
  recolored color text' = Some text'.
Proof.
  intros [Hq Hb] Hsvg. destruct (sub_fill_plain color Hb) as (t & Hsub & Hlit).
  destruct (str_in "fill=" text) eqn:Hfill.
  - rewrite (recolored_sub _ _ Hfill), Hsub. intros [= <-].
    rewrite recolored_sub, Hsub by (by apply (sub_keeps_fill color t Hlit)).
    by rewrite (sub_idempotent color t Hq Hlit).
  - rewrite (recolored_insert _ _ Hfill). intros [= <-].
    rewrite recolored_sub, Hsub by (by apply ins_has_fill).
    f_equal. exact (sub_ins color t Hlit Hq _ Hfill).
Qed.

End ModifyFacts.

(** ** The recolor engine: one file *)

Section Recolor.
Import Str Props StrFacts Re ReFacts SvgHelper RecolorFacts InsertFacts.
Import PieceFacts ModifyFacts.

(** C7. A path that names nothing, or a file whose text holds no svg tag:
    [modify_svg_color] returns [False], raises nothing and leaves the file
    store as it was. *)
Theorem C7_recolor_reports_failure (svg_path color : string)
    (σ : gmap string node) :
  σ !! svg_path = None ∨
  (∃ text r w, σ !! svg_path = Some (File text r w) ∧
               str_in "<svg" text = false) →
  modify_svg_color svg_path color σ = (Ok false, σ).
Proof.
  rewrite modify_unfold. intros [-> | (text & r & w & -> & Hsvg)]; [done|].
  rewrite Hsvg. by destruct r.
Qed.

Lemma C7_recolor_reports_failure_witness :
  (modify_svg_color "/e/images/icons/gone.svg" "#ff0000" ∅ = (Ok false, ∅)) ∧
  (modify_svg_color "/e/images/icons/bad.svg" "#ff0000"
     {[ "/e/images/icons/bad.svg" := File "not an image" true true ]}
   = (Ok false, {[ "/e/images/icons/bad.svg" := File "not an image" true true ]})).
Proof.
  split.
  - apply C7_recolor_reports_failure. left. reflexivity.
  - apply C7_recolor_reports_failure. right.
    exists "not an image", true, true. split; reflexivity.
Defined.

(** C10 (amended). A document with an svg tag and the text [fill=] in it,
    where the pattern of [re.sub] matches nowhere (a value in single quotes,
    say), and a colour whose attribute text is a well-formed replacement
    template: the new text is the old one, it is written back and the call
    returns [True]. *)
Theorem C10_unquoted_fill_unchanged (svg_path color text : string)
    (σ : gmap string node) :
  σ !! svg_path = Some (File text true true) →
  str_in "<svg" text = true →
  str_in "fill=" text = true →
  fill_occurs text = false →
  is_Some (parse_template (fill_attr color)) →
  recolored color text = Some text ∧
  modify_svg_color svg_path color σ =
    (Ok true, <[svg_path := File text true true]> σ) ∧
  (modify_svg_color svg_path color σ).2 = σ.
Proof.
  intros Hσ Hsvg Hfill Hocc [t Ht].
  assert (Hrec : recolored color text = Some text).
  { rewrite (recolored_sub _ _ Hfill). unfold sub_fill. rewrite Ht. simpl.
    by rewrite sub_from_no_occurrence. }
  rewrite modify_unfold, Hσ, Hsvg, Hrec. split_and!; [done..|].
  by apply insert_id.
Qed.

Lemma C10_unquoted_fill_unchanged_witness :
  let text := "<svg fill='#000'><path/></svg>" in
  let σ : gmap string node := {[ "/e/i.svg" := File text true true ]} in
  recolored "#ff0000" text = Some text ∧
  modify_svg_color "/e/i.svg" "#ff0000" σ =
    (Ok true, <["/e/i.svg" := File text true true]> σ) ∧
  (modify_svg_color "/e/i.svg" "#ff0000" σ).2 = σ.
Proof.
  apply C10_unquoted_fill_unchanged.
  - reflexivity.
  - reflexivity.
  - reflexivity.
  - reflexivity.
  - vm_compute. eauto.
Defined.

(** C10, as stated, fails for a colour that is not a well-formed template:
    with the colour made of a backslash and the digit 1, [re.sub] raises,
    nothing is written and the call returns [False]. *)
Lemma C10_counterexample :
  let text := "<svg fill='#000'><path/></svg>" in
  let color := String backslash "1" in
  let σ : gmap string node := {[ "/e/i.svg" := File text true true ]} in
  str_in "<svg" text = true ∧
  str_in "fill=" text = true ∧
  fill_occurs text = false ∧
  modify_svg_color "/e/i.svg" color σ = (Ok false, σ).
Proof. split_and!; reflexivity. Qed.

(** C1 (amended). For a colour with no double quote and no backslash, a
    second [modify_svg_color] with the same colour leaves the file store as
    the first one left it. *)
Theorem C1_recolor_twice_plain (svg_path color : string)
    (σ : gmap string node) :
  plain color →
  (modify_svg_color svg_path color
     (modify_svg_color svg_path color σ).2).2 =
  (modify_svg_color svg_path color σ).2.
Proof.
  intros Hplain. rewrite (modify_unfold svg_path color σ).
  destruct (σ !! svg_path) as [[text [] w|entries]|] eqn:E; simpl;
    try (by rewrite modify_unfold, E).
  destruct (str_in "<svg" text) eqn:Hsvg; simpl;
    [|by rewrite modify_unfold, E, Hsvg].
  destruct (recolored color text) as [text'|] eqn:Hrec; simpl;
    [|by rewrite modify_unfold, E, Hsvg, Hrec].
  destruct w; simpl; [|by rewrite modify_unfold, E, Hsvg, Hrec].
  rewrite modify_unfold, lookup_insert_eq.
  destruct (str_in "<svg" text'); [|done].
  rewrite (recolored_fixed color text text' Hplain Hsvg Hrec). simpl.
  apply insert_insert_eq.
Qed.

Lemma C1_recolor_twice_plain_witness :
  let σ : gmap string node :=
    {[ "/e/i.svg" := File "<svg><path/></svg>" true true ]} in
  plain "#ff0000" ∧
  (modify_svg_color "/e/i.svg" "#ff0000"
     (modify_svg_color "/e/i.svg" "#ff0000" σ).2).2 =
  (modify_svg_color "/e/i.svg" "#ff0000" σ).2.
Proof.
  split.
  - split; reflexivity.
  - apply C1_recolor_twice_plain. split; reflexivity.
Defined.

(** C1, as stated, fails for a colour that holds a double quote: the second
    call reads the first part of the value as the whole value and writes
    the colour in its place, so the text grows. *)
Lemma C1_counterexample :
  let color := "a" +:+ q +:+ "b" in
  let σ : gmap string node := {[ "/e/i.svg" := File "<svg/>" true true ]} in
  let once := (modify_svg_color "/e/i.svg" color σ).2 in
  let twice := (modify_svg_color "/e/i.svg" color once).2 in
  text_at "/e/i.svg" once =
    Some ("<svg fill=" +:+ q +:+ "a" +:+ q +:+ "b" +:+ q +:+ "/>") ∧
  text_at "/e/i.svg" twice =
    Some ("<svg fill=" +:+ q +:+ "a" +:+ q +:+ "b" +:+ q +:+ "b" +:+ q +:+ "/>") ∧
  text_at "/e/i.svg" twice ≠ text_at "/e/i.svg" once.
Proof. split_and!; [reflexivity | reflexivity | discriminate]. Qed.

End Recolor.

(** ** The recolor engine: what is rewritten *)

Section Rewrites.
Import Str Props StrFacts Re ReFacts SvgHelper RecolorFacts InsertFacts.
Import PieceFacts ModifyFacts.

(** Every document is cut at its svg tags in one way that the scan of
    [replace] follows. *)
Lemma with_tags_exists (text : string) :
  ∃ l tail, text = with_tags "" l tail ∧
            Forall (λ pre, str_in "<svg" pre = false) l ∧
            str_in "<svg" tail = false.
Proof.
  induction text as [|rest IH|c s Hm IH] using ins_ind.
  - by exists [], "".
  - destruct IH as (l & tail & -> & Hl & Htail).
    exists ("" :: l), tail. split_and!; [done| |done].
    by constructor.
  - destruct IH as (l & tail & -> & Hl & Htail).
    destruct l as [|pre l].
    + exists [], (String c tail). split_and!; [done..|].
      cbn [with_tags] in *. by rewrite str_in_cons, Hm, Htail.
    + exists (String c pre :: l), tail. split_and!; [done| |done].
      inversion Hl as [|? ? Hpre Hl']; subst. constructor; [|done].
      rewrite str_in_cons, Hpre, orb_false_r.
      destruct (startswith "<svg" (String c pre)) eqn:E; [|done].
      apply startswith_spec in E as [r Hr]. cbn [with_tags] in Hm.
      rewrite <- append_cons, Hr, append_assoc in Hm.
      by rewrite startswith_app in Hm.
Qed.

(** Every document is cut at the matches of the pattern in one way that
    the scan of [re.sub] follows. *)
Lemma with_fills_exists (text : string) :
  ∃ l tail, text = with_fills l tail ∧
            Forall (λ pv, str_in ("fill=" +:+ q) pv.1 = false ∧
                          has_char dquote pv.2 = false) l ∧
            fill_occurs tail = false.
Proof.
  induction text as [|s n Hm IH|c s Hm IH] using sub_ind.
  - by exists [], "".
  - destruct IH as (l & tail & Hs & Hl & Htail).
    apply match_fill_some in Hm as (v & rest & -> & Hv & ->).
    replace (str_drop (7 + len v) _) with rest in Hs.
    2:{ symmetry. rewrite <- !append_assoc.
        rewrite <- (str_drop_app (("fill=" +:+ q) +:+ v +:+ q) rest) at 2.
        rewrite <- !append_assoc. f_equal.
        rewrite !len_append. unfold len. simpl. lia. }
    exists (("", v) :: l), tail. split_and!; [|by constructor|done].
    simpl. unfold fill_attr. by rewrite Hs, !append_assoc.
  - destruct IH as (l & tail & -> & Hl & Htail).
    destruct l as [|[pre v] l].
    + exists [], (String c tail). split_and!; [done..|].
      cbn [with_fills fill_occurs] in *. by rewrite Hm, Htail.
    + exists ((String c pre, v) :: l), tail. split_and!; [done| |done].
      inversion Hl as [|? ? [Hpre Hv] Hl']; subst. constructor; [|done].
      split; [|done]. cbn [fst snd] in *.
      rewrite str_in_cons, Hpre, orb_false_r.
      destruct (startswith ("fill=" +:+ q) (String c pre)) eqn:E; [|done].
      apply startswith_spec in E as [r Hr]. exfalso.
      cbn [with_fills] in Hm. rewrite <- append_cons, Hr, append_assoc in Hm.
      unfold match_fill in Hm. rewrite startswith_app in Hm.
      replace (str_drop 6 _) with (r +:+ fill_attr v +:+ with_fills l tail)
        in Hm by (symmetry; apply (str_drop_app ("fill=" +:+ q))).
      destruct (find_char dquote _) eqn:Ef; [done|].
      apply find_char_none in Ef. unfold fill_attr, q in Ef.
      rewrite !has_char_app in Ef. simpl in Ef.
      by rewrite !orb_true_r in Ef.
Qed.

(** C2 (amended). For a writable document with an svg tag:
    - cut at the matches of the pattern, leftmost first, and with a colour
      without backslash, every value becomes the colour and all the text
      around the attributes is kept;
    - with no [fill=] in it and cut at its svg tags, the attribute is put
      right after each tag name, once per tag. *)
Theorem C2_recolor_rewrites (svg_path color text : string)
    (σ : gmap string node) :
  σ !! svg_path = Some (File text true true) →
  str_in "<svg" text = true →
  (∀ l tail,
     has_char backslash color = false →
     l ≠ [] →
     text = with_fills l tail →
     Forall (λ pv, str_in ("fill=" +:+ q) pv.1 = false ∧
                   has_char dquote pv.2 = false) l →
     fill_occurs tail = false →
     modify_svg_color svg_path color σ =
       (Ok true,
        <[svg_path :=
            File (with_fills (map (λ pv, (pv.1, color)) l) tail) true true]> σ))
  ∧
  (∀ l tail,
     str_in "fill=" text = false →
     text = with_tags "" l tail →
     Forall (λ pre, str_in "<svg" pre = false) l →
     str_in "<svg" tail = false →
     modify_svg_color svg_path color σ =
       (Ok true,
        <[svg_path :=
            File (with_tags (" " +:+ fill_attr color) l tail) true true]> σ)).
Proof.
  intros Hσ Hsvg. rewrite modify_unfold, Hσ, Hsvg. split.
  - intros l tail Hb Hne -> Hl Htail.
    destruct (sub_fill_plain color Hb) as (t & Hsub & Hlit).
    assert (Hfill : str_in "fill=" (with_fills l tail) = true).
    { destruct l as [|[pre v] l]; [done|]. apply str_in_spec.
      exists pre, (String dquote v +:+ q +:+ with_fills l tail).
      cbn [with_fills]. unfold fill_attr, q. by rewrite !append_assoc. }
    by rewrite (recolored_sub _ _ Hfill), Hsub, (sub_with_fills color t Hlit).
  - intros l tail Hfill -> Hl Htail. rewrite (recolored_insert _ _ Hfill).
    by rewrite (ins_with_tags _ (" " +:+ fill_attr color)).
Qed.

Lemma C2_recolor_rewrites_witness :
  let black := "<svg fill=" +:+ q +:+ "#000" +:+ q +:+ "><path fill=" +:+ q
               +:+ "#000" +:+ q +:+ "/></svg>" in
  let red := "<svg fill=" +:+ q +:+ "#f00" +:+ q +:+ "><path fill=" +:+ q
             +:+ "#f00" +:+ q +:+ "/></svg>" in
  let bare := "<svg viewBox='0 0 1 1'><path/></svg>" in
  let bare_red := "<svg fill=" +:+ q +:+ "#f00" +:+ q
                  +:+ " viewBox='0 0 1 1'><path/></svg>" in
  modify_svg_color "/e/a.svg" "#f00" {[ "/e/a.svg" := File black true true ]}
    = (Ok true, {[ "/e/a.svg" := File red true true ]}) ∧
  modify_svg_color "/e/b.svg" "#f00" {[ "/e/b.svg" := File bare true true ]}
    = (Ok true, {[ "/e/b.svg" := File bare_red true true ]}).
Proof.
  intros black red bare bare_red. split.
  - pose proof (C2_recolor_rewrites "/e/a.svg" "#f00" black
      {[ "/e/a.svg" := File black true true ]} eq_refl eq_refl) as [H _].
    rewrite (H [("<svg ", "#000"); ("><path ", "#000")] "/></svg>");
      try reflexivity; try done.
    repeat constructor.
  - pose proof (C2_recolor_rewrites "/e/b.svg" "#f00" bare
      {[ "/e/b.svg" := File bare true true ]} eq_refl eq_refl) as [_ H].
    rewrite (H [""] " viewBox='0 0 1 1'><path/></svg>");
      try reflexivity; try done.
    repeat constructor.
Defined.

(** C2, as stated, fails for a document with more than one svg tag and no
    fill attribute: every tag gets one, so two are inserted here. *)
Lemma C2_counterexample :
  let text := "<svg><g><svg/></g></svg>" in
  let σ : gmap string node := {[ "/e/i.svg" := File text true true ]} in
  str_in "<svg" text = true ∧
  str_in "fill=" text = false ∧
  text_at "/e/i.svg" (modify_svg_color "/e/i.svg" "#f00" σ).2 =
    Some ("<svg fill=" +:+ q +:+ "#f00" +:+ q +:+ "><g><svg fill=" +:+ q
          +:+ "#f00" +:+ q +:+ "/></g></svg>") ∧
  (text_at "/e/i.svg" (modify_svg_color "/e/i.svg" "#f00" σ).2
     ≫= λ t, Some (count "fill=" t)) = Some 2.
Proof. split_and!; reflexivity. Qed.

End Rewrites.

(** ** The recolor engine: the pass over the icons directory *)

Module PassFacts.
Import Str Props StrFacts SvgHelper ModifyFacts.

(** For names that are not absolute, [join_step] appends them after a
    separator that the directory alone decides. *)
Lemma join_step_sep (d : string) :
  ∃ sep, ∀ n, startswith "/" n = false → Os.join_step d n = d +:+ sep +:+ n.
Proof.
  unfold Os.join_step.
  destruct (String.eqb d "" || endswith "/" d).
  - exists "". intros n ->. done.
  - exists "/". intros n ->. done.
Qed.

Lemma join_step_inj (d n1 n2 : string) :
  startswith "/" n1 = false → startswith "/" n2 = false →
  Os.join_step d n1 = Os.join_step d n2 → n1 = n2.
Proof.
  intros H1 H2. destruct (join_step_sep d) as [sep Hsep].
  rewrite !Hsep by done. intros H.
  by apply (inj (String.app d)), (inj (String.app sep)) in H.
Qed.

(** The path of an icon is never the path of the fallback icon. *)
Lemma icon_path_ne (images name : string) :
  startswith "/" name = false →
  Os.join_step (Os.join_step images "icons") name ≠
  Os.join_step images "icon.svg".
Proof.
  intros Hn. destruct (join_step_sep images) as [sep Hsep].
  destruct (join_step_sep (Os.join_step images "icons")) as [sep2 Hsep2].
  rewrite Hsep2, !Hsep by done. rewrite !append_assoc. intros H.
  apply (inj (String.app images)), (inj (String.app sep)) in H.
  discriminate.
Qed.

Lemma no_slash_not_absolute (name : string) :
  has_char "/" name = false → startswith "/" name = false.
Proof.
  destruct name as [|c name]; [done|]. intros H. simpl in H.
  apply orb_false_elim in H as [Hc _]. rewrite startswith_cons, startswith_nil.
  rewrite andb_true_r. apply bool_decide_eq_false. intros <-.
  by rewrite Ascii.eqb_refl in Hc.
Qed.

Section Loop.
Variables (color icons_dir : string).

Let path (name : string) := Os.path_join icons_dir [name].

Let body (svg_file : string) : M (gmap string node) unit :=
  if endswith ".svg" svg_file
  then (modify_svg_color (path svg_file) color ;; ret tt)%py
  else ret tt.

(** One turn of the loop never raises. *)
Lemma body_run (name : string) (σ : gmap string node) :
  body name σ =
  (Ok tt, if endswith ".svg" name
          then (modify_svg_color (path name) color σ).2 else σ).
Proof.
  unfold body. destruct (endswith ".svg" name); [|done].
  unfold bind. destruct (modify_returns (path name) color σ) as [b Hb].
  destruct (modify_svg_color (path name) color σ) as [o σ'].
  simpl in Hb. by rewrite Hb.
Qed.

Lemma for_each_returns (entries : list string) (σ : gmap string node) :
  (for_each entries body σ).1 = Ok tt.
Proof.
  revert σ. induction entries as [|x l IH]; intros σ; [done|].
  cbn [for_each]. unfold bind. rewrite body_run. apply IH.
Qed.

(** The loop goes through all the names; each file with the extension ends
    as a call on it alone would leave it, and nothing else changes. *)
Lemma for_each_recolor (entries : list string) (σ : gmap string node) :
  Forall (λ name, has_char "/" name = false) entries →
  NoDup entries →
  (for_each entries body σ).1 = Ok tt ∧
  (∀ name, name ∈ entries → endswith ".svg" name = true →
     (for_each entries body σ).2 !! path name =
     (modify_svg_color (path name) color σ).2 !! path name) ∧
  (∀ p, (∀ name, name ∈ entries → endswith ".svg" name = true →
           p ≠ path name) →
     (for_each entries body σ).2 !! p = σ !! p).
Proof.
  intros Hall Hnd. revert σ.
  induction Hall as [|x l Hx Hall IH]; intros σ.
  - split_and!; [done| |done]. intros name Hin. by apply elem_of_nil in Hin.
  - apply NoDup_cons in Hnd as [Hxl Hnd].
    set (σ1 := if endswith ".svg" x
               then (modify_svg_color (path x) color σ).2 else σ).
    assert (Hrun : for_each (x :: l) body σ = for_each l body σ1).
    { cbn [for_each]. unfold bind. by rewrite body_run. }
    rewrite Hrun. destruct (IH Hnd σ1) as (Hok & Hin & Hout).
    assert (Hσ1 : ∀ p, p ≠ path x → σ1 !! p = σ !! p).
    { intros p Hp. unfold σ1. destruct (endswith ".svg" x); [|done].
      by apply modify_frame. }
    split_and!; [done| |].
    + intros name [->|Hname]%elem_of_cons Hsvg.
      * rewrite Hout.
        -- unfold σ1. by rewrite Hsvg.
        -- intros n Hn _ Heq. apply join_step_inj in Heq.
           ++ by subst.
           ++ by apply no_slash_not_absolute.
           ++ apply no_slash_not_absolute.
              by apply (proj1 (Forall_forall _ _) Hall).
      * rewrite (Hin name Hname Hsvg). apply modify_local, Hσ1.
        intros Heq. apply join_step_inj in Heq.
        -- by subst.
        -- apply no_slash_not_absolute.
           by apply (proj1 (Forall_forall _ _) Hall).
        -- by apply no_slash_not_absolute.
    + intros p Hp. rewrite Hout.
      * unfold σ1. destruct (endswith ".svg" x) eqn:Hsvg; [|done].
        apply modify_frame, Hp; [left|done].
      * intros name Hname. apply Hp. by right.
Qed.

End Loop.

(** No exception leaves [update_svg_colors]. *)
Lemma update_returns (color base_dir : string) (σ : gmap string node) :
  (update_svg_colors color base_dir σ).1 = Ok tt.
Proof.
  unfold update_svg_colors. unfold bind at 1.
  destruct (modify_returns
    (Os.path_join (Os.path_join base_dir ["images"]) ["icon.svg"]) color σ)
    as [b Hb].
  destruct (modify_svg_color _ color σ) as [o σ1]. simpl in Hb. subst o.
  unfold try_except, bind, Os.listdir, ret.
  destruct (σ1 !! _) as [[|entries]|]; try done.
  pose proof (for_each_returns color
    (Os.path_join (Os.path_join base_dir ["images"]) ["icons"]) entries σ1)
    as H.
  destruct (for_each entries _ σ1) as [o σ2]. simpl in H. by subst o.
Qed.

End PassFacts.

Section Pass.
Import Str Props StrFacts SvgHelper ModifyFacts PassFacts.

(** C8. [update_svg_colors] recolors [images/icon.svg], then every name of
    the icons directory that ends in [.svg]: the pass raises nothing, each
    of these files ends as a call on it alone would leave it, whatever the
    other files are, so a file without svg tag stops nothing and every file
    that can be recolored is; no other path changes. *)
Theorem C8_recolor_all (color base_dir : string) (σ : gmap string node)
    (entries : list string) :
  let images_dir := Os.path_join base_dir ["images"] in
  let icons_dir := Os.path_join images_dir ["icons"] in
  let icon := Os.path_join images_dir ["icon.svg"] in
  let path := λ name, Os.path_join icons_dir [name] in
  let σ' := (update_svg_colors color base_dir σ).2 in
  σ !! icons_dir = Some (Dir entries) →
  Forall (λ name, has_char "/" name = false) entries →
  NoDup entries →
  (update_svg_colors color base_dir σ).1 = Ok tt ∧
  σ' !! icon = (modify_svg_color icon color σ).2 !! icon ∧
  (∀ name, name ∈ entries → endswith ".svg" name = true →
     σ' !! path name =
     (modify_svg_color (path name) color σ).2 !! path name) ∧
  (∀ name text text',
     name ∈ entries → endswith ".svg" name = true →
     σ !! path name = Some (File text true true) →
     str_in "<svg" text = true →
     recolored color text = Some text' →
     σ' !! path name = Some (File text' true true)) ∧
  (∀ p, p ≠ icon →
     (∀ name, name ∈ entries → endswith ".svg" name = true → p ≠ path name) →
     σ' !! p = σ !! p).
Proof.
  intros images_dir icons_dir icon path σ' Hdir Hall Hnd.
  subst path. cbv beta.
  split; [apply update_returns|].
  assert (Hσ' : σ' = (for_each entries
    (λ svg_file, if endswith ".svg" svg_file
                 then (modify_svg_color (Os.path_join icons_dir [svg_file])
                         color ;; ret tt)%py
                 else ret tt)
    (modify_svg_color icon color σ).2).2).
  { unfold σ', update_svg_colors. fold images_dir icons_dir icon.
    unfold bind at 1. destruct (modify_returns icon color σ) as [b Hb].
    pose proof (modify_keeps_dir icon icons_dir color σ entries Hdir) as Hd.
    destruct (modify_svg_color icon color σ) as [o σ1]. simpl in Hb, Hd.
    subst o. unfold try_except, bind, Os.listdir. rewrite Hd.
    pose proof (for_each_returns color icons_dir entries σ1) as H.
    cbn [snd].
    destruct (for_each entries _ σ1) as [o σ2]. simpl in H. by subst o. }
  destruct (for_each_recolor color icons_dir entries
    (modify_svg_color icon color σ).2 Hall Hnd) as (_ & Hin & Hout).
  rewrite <- Hσ' in Hin, Hout.
  assert (Hne : ∀ name, name ∈ entries →
                Os.path_join icons_dir [name] ≠ icon).
  { intros name Hname. apply icon_path_ne, no_slash_not_absolute.
    by apply (proj1 (Forall_forall _ _) Hall). }
  assert (Hfile : ∀ name, name ∈ entries → endswith ".svg" name = true →
     σ' !! Os.path_join icons_dir [name] =
     (modify_svg_color (Os.path_join icons_dir [name]) color σ).2
       !! Os.path_join icons_dir [name]).
  { intros name Hname Hsvg. rewrite (Hin name Hname Hsvg).
    apply modify_local, modify_frame. by apply Hne. }
  split_and!.
  - apply Hout. intros name Hname _ Heq. by apply (Hne name Hname).
  - done.
  - intros name text text' Hname Hsvg Hσ Htag Hrec.
    rewrite (Hfile name Hname Hsvg), modify_unfold, Hσ, Htag, Hrec.
    apply lookup_insert_eq.
  - intros p Hp Hps. rewrite (Hout p Hps). by apply modify_frame.
Qed.

Lemma C8_recolor_all_witness :
  let red := "<svg fill=" +:+ q +:+ "#f00" +:+ q +:+ "><path/></svg>" in
  let σ : gmap string node :=
    <["/e/images/icons" := Dir ["a.svg"; "bad.svg"; "notes.txt"; "b.svg"]]>
    (<["/e/images/icon.svg" := File "<svg><path/></svg>" true true]>
    (<["/e/images/icons/a.svg" := File "<svg><path/></svg>" true true]>
    (<["/e/images/icons/bad.svg" := File "not an image" true true]>
    (<["/e/images/icons/notes.txt" := File "<svg>" true true]>
    (<["/e/images/icons/b.svg" := File "<svg><path/></svg>" true true]> ∅))))) in
  let σ' := (update_svg_colors "#f00" "/e" σ).2 in
  (update_svg_colors "#f00" "/e" σ).1 = Ok tt ∧
  σ' !! "/e/images/icons/a.svg" = Some (File red true true) ∧
  σ' !! "/e/images/icons/b.svg" = Some (File red true true) ∧
  σ' !! "/e/images/icons/bad.svg" = Some (File "not an image" true true) ∧
  σ' !! "/e/images/icons/notes.txt" = Some (File "<svg>" true true).
Proof.
  intros red σ σ'.
  assert (Hnd : NoDup ["a.svg"; "bad.svg"; "notes.txt"; "b.svg"]).
  { apply (bool_decide_unpack _). vm_compute. exact I. }
  destruct (C8_recolor_all "#f00" "/e" σ
    ["a.svg"; "bad.svg"; "notes.txt"; "b.svg"] eq_refl
    ltac:(repeat constructor) Hnd) as (Hok & _ & _ & Hvalid & _).
  split; [exact Hok|]. split_and!.
  - apply (Hvalid "a.svg" "<svg><path/></svg>"); try reflexivity.
    apply (bool_decide_unpack _). vm_compute. exact I.
  - apply (Hvalid "b.svg" "<svg><path/></svg>"); try reflexivity.
    apply (bool_decide_unpack _). vm_compute. exact I.
  - reflexivity.
  - reflexivity.
Defined.

End Pass.

(** ** Facts on the stable sort *)

Module SortFacts.
Import Main.
Local Open Scope nat_scope.

Section Sort.
Context {A : Type} (key : A → nat).

Lemma insert_by_perm (x : A) (l : list A) : insert_by key x l ≡ₚ x :: l.
Proof.
  induction l as [|y l IH]; simpl; [done|].
  destruct (key x <=? key y)%nat; [done|].
  by rewrite IH, Permutation_swap.
Qed.

Lemma sort_by_perm (l : list A) : sort_by key l ≡ₚ l.
Proof.
  induction l as [|x l IH]; simpl; [done|].
  by rewrite insert_by_perm, IH.
Qed.

(** [sorted l]: the keys never decrease along [l]. *)
Lemma insert_by_sorted (x : A) (l : list A) :
  StronglySorted (λ a b, key a ≤ key b) l →
  StronglySorted (λ a b, key a ≤ key b) (insert_by key x l).
Proof.
  induction 1 as [|y l Hl IH Hy]; simpl.
  - repeat constructor.
  - destruct (key x <=? key y)%nat eqn:E.
    + apply Nat.leb_le in E. constructor; [by constructor|].
      constructor; [done|].
      eapply Forall_impl; [exact Hy|]. simpl. intros; lia.
    + apply Nat.leb_gt in E. constructor; [done|].
      rewrite insert_by_perm. constructor; [lia | done].
Qed.

Lemma sort_by_sorted (l : list A) :
  StronglySorted (λ a b, key a ≤ key b) (sort_by key l).
Proof.
  induction l as [|x l IH]; simpl; [constructor|].
  by apply insert_by_sorted.
Qed.

(** Stability: the elements of one key keep their order. *)
Lemma insert_by_filter (k : nat) (x : A) (l : list A) :
  List.filter (λ a, key a =? k)%nat (insert_by key x l) =
  List.filter (λ a, key a =? k)%nat (x :: l).
Proof.
  induction l as [|y l IH]; [done|]. cbn [insert_by].
  destruct (key x <=? key y)%nat eqn:E; [done|].
  apply Nat.leb_gt in E. cbn [List.filter] in *. rewrite IH.
  destruct (key x =? k)%nat eqn:Ex, (key y =? k)%nat eqn:Ey; try done.
  apply Nat.eqb_eq in Ex, Ey. lia.
Qed.

Lemma sort_by_filter (k : nat) (l : list A) :
  List.filter (λ a, key a =? k)%nat (sort_by key l) =
  List.filter (λ a, key a =? k)%nat l.
Proof.
  induction l as [|x l IH]; [done|]. cbn [sort_by foldr].
  rewrite insert_by_filter. cbn [List.filter]. fold (sort_by key l).
  by rewrite IH.
Qed.

End Sort.

Lemma filter_sublist {A} (f : A → bool) (l : list A) :
  List.filter f l `sublist_of` l.
Proof.
  induction l as [|x l IH]; simpl; [done|].
  destruct (f x); [by apply sublist_skip | by apply sublist_cons].
Qed.

Lemma sublist_filter {A} (f : A → bool) (l1 l2 : list A) :
  l1 `sublist_of` l2 → List.filter f l1 `sublist_of` List.filter f l2.
Proof.
  induction 1 as [|x l1 l2 H IH|x l1 l2 H IH]; simpl; [done| |].
  - destruct (f x); [by apply sublist_skip | done].
  - destruct (f x); [by apply sublist_cons | done].
Qed.

(** Two positions in increasing order give a two-element sublist, and the
    other way round. *)
Lemma lookup_pair_sublist {A} (l : list A) (i j : nat) (x y : A) :
  i < j → l !! i = Some x → l !! j = Some y → [x; y] `sublist_of` l.
Proof.
  revert i j. induction l as [|z l IH]; intros i j Hij Hi Hj; [done|].
  destruct i as [|i]; simpl in Hi.
  - injection Hi as ->. apply sublist_skip.
    destruct j as [|j]; [lia|]. simpl in Hj.
    apply singleton_sublist_l. by eapply list_elem_of_lookup_2.
  - destruct j as [|j]; [lia|]. simpl in Hj. apply sublist_cons.
    apply (IH i j); [lia | done..].
Qed.

Lemma sublist_pair_lookup {A} (l : list A) (x y : A) :
  [x; y] `sublist_of` l →
  ∃ i j, i < j ∧ l !! i = Some x ∧ l !! j = Some y.
Proof.
  intros (k1 & k2 & -> & Hy)%sublist_cons_l.
  apply singleton_sublist_l, list_elem_of_lookup in Hy as [j Hj].
  exists (length k1), (S (length k1 + j)). split_and!; [lia| |].
  - by rewrite list_lookup_middle.
  - rewrite lookup_app_r by lia.
    replace (S (length k1 + j) - length k1) with (S j) by lia. done.
Qed.

Lemma sorted_lookup {A} (R : A → A → Prop) (l : list A) (i j : nat) (x y : A) :
  StronglySorted R l → i < j → l !! i = Some x → l !! j = Some y → R x y.
Proof.
  intros Hs. revert i j. induction Hs as [|z l Hl IH Hz]; intros i j Hij Hi Hj.
  - done.
  - destruct j as [|j]; [lia|]. simpl in Hj. destruct i as [|i]; simpl in Hi.
    + injection Hi as ->. apply (proj1 (Forall_forall _ _) Hz).
      by eapply list_elem_of_lookup_2.
    + apply (IH i j); [lia | done..].
Qed.

End SortFacts.

(** ** The matcher and ranker *)

Module SearchFacts.
Import Str Props StrFacts Main SortFacts.
Local Open Scope nat_scope.

(** [_search_icons] ranks all the candidates and keeps the first ten. *)
Lemma search_unfold (query : string) (icons_data : catalog) :
  _search_icons query icons_data =
  take 10 (sort_by (relevance (lower query))
             (List.filter (is_match (lower query)) icons_data)).
Proof. reflexivity. Qed.

Lemma search_length (query : string) (icons_data : catalog) :
  length (_search_icons query icons_data) ≤ 10.
Proof. rewrite search_unfold, length_take. lia. Qed.

Lemma search_elem (query : string) (icons_data : catalog) x :
  x ∈ _search_icons query icons_data →
  x ∈ icons_data ∧ is_match (lower query) x = true.
Proof.
  rewrite search_unfold. intros Hx.
  pose proof (elem_of_sublist _ _ _ Hx (sublist_take _ _)) as H.
  rewrite sort_by_perm in H. apply list_elem_of_In, filter_In in H as [H1 H2].
  by apply list_elem_of_In in H1.
Qed.

Lemma is_match_spec (q : string) (x : string * icon_data) :
  is_match q x = true ↔
  str_in q (lower x.1) = true ∨
  ∃ tag, tag ∈ default [] (search_terms x.2) ∧ str_in q (lower tag) = true.
Proof.
  unfold is_match. rewrite orb_true_iff, existsb_exists.
  by setoid_rewrite list_elem_of_In.
Qed.

Lemma startswith_refl (s : string) : startswith s s = true.
Proof. apply startswith_spec. exists "". by rewrite append_nil_r. Qed.

(** The tiers, by what they mean for the name. *)
Lemma relevance_spec (q : string) (x : string * icon_data) :
  (relevance q x = 0 ↔ lower x.1 = q) ∧
  (relevance q x = 1 ↔ lower x.1 ≠ q ∧ startswith q (lower x.1) = true) ∧
  (relevance q x = 2 ↔
     startswith q (lower x.1) = false ∧ str_in q (lower x.1) = true) ∧
  (relevance q x = 3 ↔ str_in q (lower x.1) = false).
Proof.
  unfold relevance. destruct (String.eqb_spec (lower x.1) q) as [->|Hne].
  - rewrite startswith_refl, (str_in_startswith _ _ (startswith_refl q)).
    split_and!; split; intros; destruct_and?; try done; try lia.
  - destruct (startswith q (lower x.1)) eqn:Hs.
    + rewrite (str_in_startswith _ _ Hs).
      split_and!; split; intros; destruct_and?; try done; try lia.
    + destruct (str_in q (lower x.1)) eqn:Hi;
        split_and!; split; intros; destruct_and?; try done; try lia.
Qed.

End SearchFacts.

Section Search.
Import Str Props StrFacts Main SortFacts SearchFacts.

(** C3. The result of [_search_icons] is in ascending order of relevance
    tier, two records of one tier stand in the order they have in the
    catalog, the tiers mean what the claim says, and the catalog of the
    claim gives home, homepage, house. *)
Theorem C3_ranked_by_tier (query : string) (icons_data : catalog) :
  let q := lower query in
  let r := _search_icons query icons_data in
  (∀ i j x y, (i < j)%nat → r !! i = Some x → r !! j = Some y →
     (relevance q x ≤ relevance q y)%nat ∧
     (relevance q x = relevance q y →
      ∃ i' j', (i' < j')%nat ∧
               icons_data !! i' = Some x ∧ icons_data !! j' = Some y)) ∧
  (∀ x, x ∈ r →
     (relevance q x = 0%nat ↔ lower x.1 = q) ∧
     (relevance q x = 1%nat ↔
        lower x.1 ≠ q ∧ startswith q (lower x.1) = true) ∧
     (relevance q x = 2%nat ↔
        startswith q (lower x.1) = false ∧ str_in q (lower x.1) = true) ∧
     (relevance q x = 3%nat ↔ str_in q (lower x.1) = false) ∧
     (relevance q x = 3%nat →
      ∃ tag, tag ∈ default [] (search_terms x.2) ∧
             str_in q (lower tag) = true)) ∧
  map fst (_search_icons "home"
             [("home", with_terms []); ("homepage", with_terms []);
              ("house", with_terms ["home-like"])]) =
  ["home"; "homepage"; "house"].
Proof.
  intros q r. split_and!; [| |reflexivity].
  - intros i j x y Hij Hi Hj. unfold r in Hi, Hj.
    rewrite search_unfold in Hi, Hj.
    apply lookup_take_Some in Hi as [Hi _], Hj as [Hj _].
    split.
    + exact (sorted_lookup _ _ i j x y (sort_by_sorted _ _) Hij Hi Hj).
    + intros Heq. apply sublist_pair_lookup.
      pose proof (lookup_pair_sublist _ i j x y Hij Hi Hj) as Hsub.
      apply (sublist_filter (λ a, relevance q a =? relevance q x)%nat) in Hsub.
      rewrite sort_by_filter in Hsub. cbn [List.filter] in Hsub.
      rewrite <- Heq, Nat.eqb_refl in Hsub.
      etrans; [exact Hsub|]. etrans; apply filter_sublist.
  - intros x Hx. destruct (relevance_spec q x) as (H0 & H1 & H2 & H3).
    split_and!; try done. intros Hr.
    apply search_elem in Hx as [_ Hm]. apply is_match_spec in Hm as [Hm|Hm]; [|done].
    apply H3 in Hr. fold q in Hm. congruence.
Qed.

(** C5. Every record of the result is a record of the catalog whose name,
    or one of whose search terms, holds the query, both in lower case; with
    no such record the result is the empty list. *)
Theorem C5_results_match (query : string) (icons_data : catalog) :
  (∀ x, x ∈ _search_icons query icons_data →
     x ∈ icons_data ∧
     (str_in (lower query) (lower x.1) = true ∨
      ∃ tag, tag ∈ default [] (search_terms x.2) ∧
             str_in (lower query) (lower tag) = true)) ∧
  ((∀ x, x ∈ icons_data →
      str_in (lower query) (lower x.1) = false ∧
      ∀ tag, tag ∈ default [] (search_terms x.2) →
             str_in (lower query) (lower tag) = false) →
   _search_icons query icons_data = []).
Proof.
  split.
  - intros x Hx. apply search_elem in Hx as [Hin Hm].
    by apply is_match_spec in Hm.
  - intros Hnone. rewrite search_unfold.
    replace (List.filter _ icons_data) with (@nil (string * icon_data)); [done|].
    symmetry. induction icons_data as [|x l IH]; [done|]. simpl.
    destruct (is_match (lower query) x) eqn:Hm.
    + apply is_match_spec in Hm.
      destruct (Hnone x ltac:(left)) as [Hname Hterms].
      destruct Hm as [Hm | (tag & Htag & Hm)]; [congruence|].
      by rewrite (Hterms tag Htag) in Hm.
    + apply IH. intros y Hy. apply Hnone. by right.
Qed.

(** C4, where the code leaves the claim: the search cuts the ranked list at
    the constant 10 and never reads [max_results].  With [max_results] set
    to 3 and four icons that match, the handler gets four records. *)
Theorem C4_max_results_not_applied :
  (∀ argument format color n1 n2 catalog,
     on_event_matched_icons argument
       {| copy_format := format; icon_color := color; max_results := n1;
          icons_data := catalog |} =
     on_event_matched_icons argument
       {| copy_format := format; icon_color := color; max_results := n2;
          icons_data := catalog |}) ∧
  (length <$> on_event_matched_icons (Some "arrow")
     {| copy_format := "html"; icon_color := "#7dcfff"; max_results := 3;
        icons_data := [("arrow-up", with_terms []); ("arrow-down", with_terms []);
                       ("arrow-left", with_terms []);
                       ("arrow-right", with_terms [])] |}) = Some 4%nat.
Proof. split; [done | reflexivity]. Qed.

(** What does hold of the cut: at most ten records, taken from the front
    of the ranking of all the candidates. *)
Lemma search_ranks_then_cuts (query : string) (icons_data : catalog) :
  (length (_search_icons query icons_data) ≤ 10)%nat ∧
  _search_icons query icons_data =
  take 10 (sort_by (relevance (lower query))
             (List.filter (is_match (lower query)) icons_data)).
Proof. split; [apply search_length | apply search_unfold]. Qed.

End Search.

(** ** The content generator and its cache *)

Module CacheFacts.
Import Str Props StrFacts Main.

(** The svg branch: the text of a readable file, the markup otherwise. *)
Lemma wrapped_svg (a : args) (σ : gmap string node) :
  format_type a = "svg" →
  get_copy_content_wrapped a σ =
  (Ok match σ !! svg_path a with
      | Some (File text true _) => text
      | _ => html_snippet a
      end, σ).
Proof.
  intros Hf. unfold get_copy_content_wrapped. rewrite Hf. simpl.
  unfold try_except, bind, Os.path_exists, Os.read_text, ret.
  destruct (σ !! svg_path a) as [[text [] w|entries]|] eqn:E; simpl;
    rewrite ?E; done.
Qed.

(** The other branches read nothing. *)
Lemma wrapped_pure (a : args) (σ σ' : gmap string node) :
  format_type a ≠ "svg" →
  (get_copy_content_wrapped a σ).1 = (get_copy_content_wrapped a σ').1.
Proof.
  intros Hf. unfold get_copy_content_wrapped.
  destruct (String.eqb (format_type a) "html"); [done|].
  destruct (String.eqb (format_type a) "class"); [done|].
  destruct (String.eqb (format_type a) "unicode"); [done|].
  destruct (String.eqb_spec (format_type a) "svg"); done.
Qed.

(** No exception leaves the body, and the file store is only read. *)
Lemma wrapped_returns (a : args) (σ : gmap string node) :
  ∃ v, get_copy_content_wrapped a σ = (Ok v, σ).
Proof.
  destruct (String.eqb_spec (format_type a) "svg") as [Hf|Hf].
  - rewrite (wrapped_svg a σ Hf). eauto.
  - unfold get_copy_content_wrapped.
    destruct (String.eqb (format_type a) "html"); [by eexists|].
    destruct (String.eqb (format_type a) "class"); [by eexists|].
    destruct (String.eqb (format_type a) "unicode"); [by eexists|].
    destruct (String.eqb_spec (format_type a) "svg"); [done | by eexists].
Qed.

Section Lru.
Context {K V : Type} `{EqDecision K}.

Lemma cache_lookup_cons (k k' : K) (v : V) (c : list (K * V)) :
  cache_lookup k ((k', v) :: c) =
  if decide (k' = k) then Some v else cache_lookup k c.
Proof.
  unfold cache_lookup. simpl. destruct (decide (k' = k)) as [->|Hne].
  - by rewrite bool_decide_eq_true_2.
  - by rewrite bool_decide_eq_false_2.
Qed.

Lemma cache_lookup_remove (k k' : K) (c : list (K * V)) :
  k' ≠ k → cache_lookup k (cache_remove k' c) = cache_lookup k c.
Proof.
  intros Hne. induction c as [|[k0 v0] c IH]; [done|].
  unfold cache_remove in *. simpl.
  destruct (decide (k0 = k')) as [->|Hk].
  - rewrite bool_decide_eq_true_2 by done. simpl.
    rewrite IH, cache_lookup_cons. by rewrite decide_False.
  - rewrite bool_decide_eq_false_2 by done. simpl.
    rewrite !cache_lookup_cons. by rewrite IH.
Qed.

Lemma cache_lookup_take (k : K) (v : V) (n : nat) (c : list (K * V)) :
  cache_lookup k (take n c) = Some v → cache_lookup k c = Some v.
Proof.
  revert n. induction c as [|[k0 v0] c IH]; intros [|n]; try done.
  simpl take. rewrite !cache_lookup_cons.
  destruct (decide (k0 = k)); [done | apply IH].
Qed.

End Lru.

(** The two cases of a call through the cache. *)
Lemma cached_hit (a : args) (v : string) c (σ : gmap string node) :
  cache_lookup a c = Some v →
  get_copy_content a (c, σ) = (Ok v, ((a, v) :: cache_remove a c, σ)).
Proof. intros H. unfold get_copy_content, lru_cache. by rewrite H. Qed.

Lemma cached_miss (a : args) c (σ : gmap string node) :
  cache_lookup a c = None →
  ∃ v, get_copy_content_wrapped a σ = (Ok v, σ) ∧
       get_copy_content a (c, σ) = (Ok v, (take 64 ((a, v) :: c), σ)).
Proof.
  intros H. destruct (wrapped_returns a σ) as [v Hv]. exists v.
  split; [done|]. unfold get_copy_content, lru_cache. by rewrite H, Hv.
Qed.

(** No exception leaves [get_copy_content]. *)
Lemma cached_returns (a : args) c (σ : gmap string node) :
  ∃ v, (get_copy_content a (c, σ)).1 = Ok v.
Proof.
  destruct (cache_lookup a c) as [v|] eqn:E.
  - exists v. by rewrite (cached_hit a v c σ E).
  - destruct (cached_miss a c σ E) as (v & _ & ->). by exists v.
Qed.

(** A call keeps the invariant of the cache. *)
Lemma cache_sound_call (a : args) c (σ : gmap string node) :
  cache_sound c → cache_sound (get_copy_content a (c, σ)).2.1.
Proof.
  intros Hc a' v' σ' Hlook Hf.
  destruct (cache_lookup a c) as [v|] eqn:E.
  - rewrite (cached_hit a v c σ E) in Hlook. simpl in Hlook.
    rewrite cache_lookup_cons in Hlook.
    destruct (decide (a = a')) as [->|Hne].
    + injection Hlook as <-. by apply Hc.
    + rewrite cache_lookup_remove in Hlook by done. by apply Hc.
  - destruct (cached_miss a c σ E) as (v & Hv & Hrun).
    rewrite Hrun in Hlook. cbn [fst snd] in Hlook.
    apply cache_lookup_take in Hlook. rewrite cache_lookup_cons in Hlook.
    destruct (decide (a = a')) as [->|Hne].
    + injection Hlook as <-. rewrite (wrapped_pure a' σ' σ Hf). by rewrite Hv.
    + by apply Hc.
Qed.

Lemma reachable_sound c : reachable c → cache_sound c.
Proof.
  induction 1 as [|c σ a Hc IH].
  - intros a v σ H. done.
  - by apply cache_sound_call.
Qed.

(** Through a reachable cache, a format that reads no file gives what the
    body gives. *)
Lemma cached_pure (a : args) c (σ : gmap string node) :
  reachable c → format_type a ≠ "svg" →
  (get_copy_content a (c, σ)).1 = (get_copy_content_wrapped a σ).1.
Proof.
  intros Hc Hf. destruct (cache_lookup a c) as [v|] eqn:E.
  - rewrite (cached_hit a v c σ E). simpl. symmetry.
    by apply (reachable_sound c Hc).
  - destruct (cached_miss a c σ E) as (v & Hv & ->). by rewrite Hv.
Qed.

End CacheFacts.

Module PathFacts.
Import Str Props StrFacts Main.

Lemma endswith_slash_app (a b : string) :
  b ≠ "" → endswith "/" (a +:+ b) = endswith "/" b.
Proof.
  intros Hb. induction a as [|c a IH]; [done|].
  rewrite append_cons. cbn [endswith]. rewrite IH.
  destruct (a +:+ b) as [|d r] eqn:E.
  - destruct a; [by rewrite append_nil_l in E | discriminate].
  - replace (String.eqb (String c (String d r)) "/") with false; [done|].
    symmetry. apply String.eqb_neq. discriminate.
Qed.

(** For a root that is not empty and has no final slash, and an identifier
    that is not absolute, the path of the asset is the root, then
    [/images/icons/], the identifier and the extension. *)
Lemma svg_path_plain (a : args) :
  base_dir a ≠ "" → endswith "/" (base_dir a) = false →
  startswith "/" (icon_ident a) = false →
  svg_path a = base_dir a +:+ "/images/icons/" +:+ icon_ident a +:+ ".svg".
Proof.
  intros Hne Hend Hid. unfold svg_path, Os.path_join. cbn [foldl].
  assert (Hnonempty : ∀ x y, x ≠ "" → String.eqb (x +:+ y) "" = false).
  { intros x y Hx. apply String.eqb_neq. destruct x; [done | discriminate]. }
  assert (H1 : Os.join_step (base_dir a) "images" = base_dir a +:+ "/images").
  { unfold Os.join_step. rewrite Hend.
    replace (String.eqb (base_dir a) "") with false
      by (symmetry; by apply String.eqb_neq).
    done. }
  rewrite H1.
  assert (H2 : Os.join_step (base_dir a +:+ "/images") "icons" =
               base_dir a +:+ "/images/icons").
  { unfold Os.join_step. rewrite (Hnonempty _ _ Hne).
    rewrite endswith_slash_app by done. cbn [orb].
    replace (endswith "/" "/images") with false by reflexivity.
    replace (startswith "/" "icons") with false by reflexivity.
    rewrite append_assoc. reflexivity. }
  rewrite H2. unfold Os.join_step. rewrite (Hnonempty _ _ Hne).
  rewrite endswith_slash_app by done.
  replace (endswith "/" "/images/icons") with false by reflexivity.
  replace (startswith "/" (icon_ident a +:+ ".svg")) with false.
  - cbn [orb]. rewrite !append_assoc. reflexivity.
  - symmetry. destruct (icon_ident a) as [|c s]; [done|].
    rewrite append_cons. rewrite startswith_cons in *.
    by rewrite !startswith_nil in *.
Qed.

End PathFacts.

Section Generate.
Import Str Props StrFacts Main CacheFacts PathFacts.

(** C6 (amended). For the format svg no exception leaves
    [get_copy_content] and the file store is not changed.  On a call whose
    arguments are not in the cache, the result is the text of the asset
    file when it is a readable file, and the markup of the format html when
    the path names nothing, a file that cannot be read, or a directory.  On
    a call whose arguments are in the cache, the result is the cached
    string. *)
Theorem C6_svg_content (a : args) :
  format_type a = "svg" →
  (∀ c σ, ∃ v, (get_copy_content a (c, σ)).1 = Ok v ∧
               (get_copy_content a (c, σ)).2.2 = σ) ∧
  (∀ c σ, cache_lookup a c = None →
     (∀ text w, σ !! svg_path a = Some (File text true w) →
        (get_copy_content a (c, σ)).1 = Ok text) ∧
     (σ !! svg_path a = None →
        (get_copy_content a (c, σ)).1 = Ok (html_snippet a)) ∧
     (∀ text w, σ !! svg_path a = Some (File text false w) →
        (get_copy_content a (c, σ)).1 = Ok (html_snippet a)) ∧
     (∀ entries, σ !! svg_path a = Some (Dir entries) →
        (get_copy_content a (c, σ)).1 = Ok (html_snippet a))) ∧
  (∀ c σ v, cache_lookup a c = Some v →
     (get_copy_content a (c, σ)).1 = Ok v) ∧
  (base_dir a ≠ "" → endswith "/" (base_dir a) = false →
   startswith "/" (icon_ident a) = false →
   svg_path a = base_dir a +:+ "/images/icons/" +:+ icon_ident a +:+ ".svg").
Proof.
  intros Hf. split_and!.
  - intros c σ. destruct (cache_lookup a c) as [v|] eqn:E.
    + exists v. by rewrite (cached_hit a v c σ E).
    + destruct (cached_miss a c σ E) as (v & _ & ->). by exists v.
  - intros c σ E. destruct (cached_miss a c σ E) as (v & Hv & ->).
    rewrite (wrapped_svg a σ Hf) in Hv. injection Hv as <-. cbn [fst].
    split_and!.
    + by intros text w ->.
    + by intros ->.
    + by intros text w ->.
    + by intros entries ->.
  - intros c σ v E. by rewrite (cached_hit a v c σ E).
  - apply svg_path_plain.
Qed.

Lemma C6_svg_content_witness :
  let a := {| format_type := "svg"; icon_name := "home"; icon_ident := "home";
              unicode_value := ""; style := "solid"; base_dir := "/e" |} in
  let σ : gmap string node :=
    {[ "/e/images/icons/home.svg" := File "<svg><path/></svg>" true true ]} in
  (get_copy_content a ([], σ)).1 = Ok "<svg><path/></svg>" ∧
  (get_copy_content a ([], ∅)).1 =
    Ok ("<i class=" +:+ q +:+ "fas fa-home" +:+ q +:+ "></i>").
Proof.
  intros a σ.
  destruct (C6_svg_content a eq_refl) as (_ & Hmiss & _).
  split.
  - destruct (Hmiss [] σ eq_refl) as (H & _). by apply (H _ true).
  - destruct (Hmiss [] ∅ eq_refl) as (_ & H & _). by apply H.
Defined.

(** C6, as stated, fails on a call answered from the cache: after a first
    call has read the file, a second call with the same arguments returns
    the text read then, though the file is gone. *)
Lemma C6_counterexample :
  let a := {| format_type := "svg"; icon_name := "home"; icon_ident := "home";
              unicode_value := ""; style := "solid"; base_dir := "/e" |} in
  let σ : gmap string node :=
    {[ "/e/images/icons/home.svg" := File "<svg><path/></svg>" true true ]} in
  let c := (get_copy_content a ([], σ)).2.1 in
  (∅ : gmap string node) !! svg_path a = None ∧
  (get_copy_content a (c, ∅)).1 = Ok "<svg><path/></svg>" ∧
  html_snippet a = "<i class=" +:+ q +:+ "fas fa-home" +:+ q +:+ "></i>".
Proof. split_and!; reflexivity. Qed.

(** C9. Through any state of the cache that calls can reach:
    the style code is s for solid, r for regular and b otherwise; the
    format html gives the markup with the class, the format class the
    class, the format unicode with no value the class, and a format that is
    none of the four the markup; the two calls of the claim give the
    strings of the claim. *)
Theorem C9_pure_formats (a : args) c (σ : gmap string node) :
  reachable c →
  let out := (get_copy_content a (c, σ)).1 in
  let code := style_short (style a) in
  (style_short "solid" = "s" ∧ style_short "regular" = "r" ∧
   (style a ≠ "solid" → style a ≠ "regular" → code = "b")) ∧
  (format_type a = "html" →
   out = Ok ("<i class=" +:+ q +:+ "fa" +:+ code +:+ " fa-" +:+ icon_name a
             +:+ q +:+ "></i>")) ∧
  (format_type a = "class" →
   out = Ok ("fa" +:+ code +:+ " fa-" +:+ icon_name a)) ∧
  (format_type a = "unicode" → unicode_value a = "" →
   out = Ok ("fa" +:+ code +:+ " fa-" +:+ icon_name a)) ∧
  (format_type a ∉ ["html"; "class"; "unicode"; "svg"] →
   out = Ok ("<i class=" +:+ q +:+ "fa" +:+ code +:+ " fa-" +:+ icon_name a
             +:+ q +:+ "></i>")) ∧
  (∀ root,
     a = {| format_type := "html"; icon_name := "home"; icon_ident := "home";
            unicode_value := ""; style := "solid"; base_dir := root |} →
     out = Ok ("<i class=" +:+ q +:+ "fas fa-home" +:+ q +:+ "></i>")) ∧
  (∀ root,
     a = {| format_type := "unicode"; icon_name := "home"; icon_ident := "home";
            unicode_value := ""; style := "solid"; base_dir := root |} →
     out = Ok "fas fa-home").
Proof.
  intros Hc out code.
  assert (Hpure : format_type a ≠ "svg" →
                  out = (get_copy_content_wrapped a σ).1)
    by (intros Hf; by apply cached_pure).
  split; [|split_and!].
  - split_and!; [done..|]. intros H1 H2. unfold code, style_short.
    destruct (String.eqb_spec (style a) "solid"); [done|].
    by destruct (String.eqb_spec (style a) "regular").
  - intros Hf. rewrite Hpure by (by rewrite Hf).
    unfold get_copy_content_wrapped. rewrite Hf. cbn [String.eqb].
    unfold html_snippet, class_string. cbn. by rewrite !append_assoc.
  - intros Hf. rewrite Hpure by (by rewrite Hf).
    unfold get_copy_content_wrapped. by rewrite Hf.
  - intros Hf Hu. rewrite Hpure by (by rewrite Hf).
    unfold get_copy_content_wrapped. by rewrite Hf, Hu.
  - intros Hf. rewrite Hpure by (intros E; apply Hf; rewrite E; set_solver).
    unfold get_copy_content_wrapped.
    destruct (String.eqb_spec (format_type a) "html") as [E|_];
      [destruct Hf; rewrite E; set_solver|].
    destruct (String.eqb_spec (format_type a) "class") as [E|_];
      [destruct Hf; rewrite E; set_solver|].
    destruct (String.eqb_spec (format_type a) "unicode") as [E|_];
      [destruct Hf; rewrite E; set_solver|].
    destruct (String.eqb_spec (format_type a) "svg") as [E|_];
      [destruct Hf; rewrite E; set_solver|].
    unfold html_snippet, class_string. cbn. by rewrite !append_assoc.
  - intros root Ha. rewrite Hpure by (by rewrite Ha). by rewrite Ha.
  - intros root Ha. rewrite Hpure by (by rewrite Ha). by rewrite Ha.
Qed.

Lemma C9_pure_formats_witness :
  let a := {| format_type := "html"; icon_name := "home"; icon_ident := "home";
              unicode_value := ""; style := "solid"; base_dir := "/e" |} in
  reachable [] ∧
  (get_copy_content a ([], ∅)).1 =
    Ok ("<i class=" +:+ q +:+ "fas fa-home" +:+ q +:+ "></i>").
Proof.
  intros a. split; [constructor|].
  destruct (C9_pure_formats a [] ∅ reachable_start)
    as (_ & _ & _ & _ & _ & H & _).
  exact (H "/e" eq_refl).
Defined.

End Generate.

(** ** More on the recolored text: what a call leaves in the file, and a
       second colour after a first *)

Module ColourFacts.
Import Str Props MoreProps StrFacts Re ReFacts SvgHelper RecolorFacts.
Import InsertFacts PieceFacts ModifyFacts.

(** What [new] holds is in the document after the insertion, when there is
    a tag. *)
Lemma ins_keeps (x new s : string) :
  str_in x new = true → str_in "<svg" s = true →
  str_in x (replace "<svg" new s) = true.
Proof.
  intros Hx. induction s as [|rest IH|c s Hm IH] using ins_ind; intros Hs.
  - done.
  - rewrite ins_match. by apply str_in_app_l.
  - rewrite (ins_no_match _ _ _ Hm), str_in_cons.
    rewrite str_in_cons, Hm in Hs. by rewrite (IH Hs), orb_true_r.
Qed.

Lemma fill_attr_in_new (color : string) :
  str_in (fill_attr color) ("<svg " +:+ fill_attr color) = true.
Proof.
  apply str_in_spec. exists "<svg ", "". by rewrite append_nil_r.
Qed.

Section TwoColours.
Variables (c1 c2 : string) (t1 t2 : template).
Hypothesis Hq1 : has_char dquote c1 = false.
Hypothesis Hlit1 : ∀ m, expand t1 m = fill_attr c1.
Hypothesis Hlit2 : ∀ m, expand t2 m = fill_attr c2.

(** A match leaves the attribute with the colour in the result. *)
Lemma sub_has_attr (s : string) :
  fill_occurs s = true → str_in (fill_attr c2) (sub_from t2 0 s) = true.
Proof.
  induction s as [|s n Hm IH|c s Hm IH] using sub_ind.
  - done.
  - intros _. rewrite (sub_match t2 s n Hm), Hlit2.
    apply str_in_startswith, startswith_app.
  - cbn [fill_occurs]. rewrite Hm. intros H.
    rewrite (sub_no_match t2 _ _ Hm), str_in_cons.
    rewrite bool_decide_eq_false_2 in H by (by intros [? ?]).
    by rewrite (IH H), orb_true_r.
Qed.

(** [re.sub] with a second colour after [re.sub] with a first one is
    [re.sub] with the second. *)
Lemma sub_sub (s : string) :
  sub_from t2 0 (sub_from t1 0 s) = sub_from t2 0 s.
Proof.
  destruct (with_fills_exists s) as (l & tail & -> & Hl & Htail).
  rewrite (sub_with_fills c1 t1 Hlit1 l tail Hl Htail).
  rewrite (sub_with_fills c2 t2 Hlit2 l tail Hl Htail).
  rewrite (sub_with_fills c2 t2 Hlit2 _ tail); [by rewrite map_map| |done].
  apply Forall_fmap. eapply Forall_impl; [exact Hl|].
  intros [pre v] [Hpre _]. by split.
Qed.

(** [re.sub] with a second colour after the insertion of a first one is
    the insertion of the second. *)
Lemma sub_ins_other (s : string) :
  str_in "fill=" s = false →
  sub_from t2 0 (replace "<svg" ("<svg " +:+ fill_attr c1) s) =
  replace "<svg" ("<svg " +:+ fill_attr c2) s.
Proof.
  induction s as [|rest IH|c s Hm IH] using ins_ind; intros Hs.
  - done.
  - rewrite !ins_match.
    set (X1 := replace "<svg" ("<svg " +:+ fill_attr c1) rest) in *.
    set (X2 := replace "<svg" ("<svg " +:+ fill_attr c2) rest) in *.
    rewrite !append_assoc. app_norm.
    rewrite !(sub_no_match t2) by (by apply match_fill_head).
    pose proof (sub_piece c2 t2 Hlit2 "" c1 X1 eq_refl Hq1) as Hp.
    rewrite !append_nil_l in Hp. rewrite Hp, IH; [done|].
    by apply str_in_false_app_r in Hs.
  - rewrite !(ins_no_match _ _ _ Hm).
    rewrite (sub_no_match t2) by (by apply match_fill_ins).
    rewrite IH; [done|]. by apply str_in_false_cons in Hs as [_ Hs].
Qed.

End TwoColours.

(** At the level of [recolored]: the second colour wins, whatever the first
    one was, as long as it was plain. *)
Lemma recolored_last_wins (c1 c2 text t1 : string) :
  plain c1 → has_char backslash c2 = false →
  recolored c1 text = Some t1 →
  recolored c2 t1 = recolored c2 text.
Proof.
  intros [Hq1 Hb1] Hb2.
  destruct (sub_fill_plain c1 Hb1) as (k1 & Hsub1 & Hlit1).
  destruct (sub_fill_plain c2 Hb2) as (k2 & Hsub2 & Hlit2).
  destruct (str_in "fill=" text) eqn:Hfill.
  - rewrite (recolored_sub _ _ Hfill), Hsub1. intros [= <-].
    rewrite (recolored_sub c2 text Hfill), Hsub2.
    rewrite recolored_sub, Hsub2 by (by apply (sub_keeps_fill c1 k1 Hlit1)).
    by rewrite (sub_sub c1 c2 k1 k2 Hq1 Hlit1 Hlit2).
  - rewrite (recolored_insert _ _ Hfill). intros [= <-].
    rewrite (recolored_insert c2 text Hfill).
    destruct (str_in "<svg" text) eqn:Hsvg.
    + rewrite recolored_sub, Hsub2 by (by apply ins_has_fill). f_equal.
      exact (sub_ins_other c1 c2 k2 Hq1 Hlit2 text Hfill).
    + change (replace_from "<svg" ("<svg " +:+ fill_attr c1) 0 text)
        with (replace "<svg" ("<svg " +:+ fill_attr c1) text).
      rewrite (ins_no_tag _ _ Hsvg), (recolored_insert c2 text Hfill).
      done.
Qed.

(** With a colour without backslash [recolored] always gives a text. *)
Lemma recolored_plain_some (color text : string) :
  has_char backslash color = false → is_Some (recolored color text).
Proof.
  intros Hb. destruct (sub_fill_plain color Hb) as (t & Hsub & _).
  destruct (str_in "fill=" text) eqn:Hfill.
  - rewrite (recolored_sub _ _ Hfill), Hsub. eauto.
  - rewrite (recolored_insert _ _ Hfill). eauto.
Qed.

(** Two calls in a row with a plain colour: the second changes nothing. *)
Lemma modify_twice (p color : string) (σ : gmap string node) :
  plain color →
  (modify_svg_color p color (modify_svg_color p color σ).2).2 =
  (modify_svg_color p color σ).2.
Proof.
  intros Hplain. rewrite (modify_unfold p color σ).
  destruct (σ !! p) as [[text [] w|entries]|] eqn:E; simpl;
    try (by rewrite modify_unfold, E).
  destruct (str_in "<svg" text) eqn:Hsvg; simpl;
    [|by rewrite modify_unfold, E, Hsvg].
  destruct (recolored color text) as [text'|] eqn:Hrec; simpl;
    [|by rewrite modify_unfold, E, Hsvg, Hrec].
  destruct w; simpl; [|by rewrite modify_unfold, E, Hsvg, Hrec].
  rewrite modify_unfold, lookup_insert_eq.
  destruct (str_in "<svg" text'); [|done].
  rewrite (recolored_fixed color text text' Hplain Hsvg Hrec). simpl.
  apply insert_insert_eq.
Qed.

(** A call keeps the shape of every node. *)
Lemma modify_shape (p p' color : string) (σ : gmap string node) :
  shape <$> (modify_svg_color p color σ).2 !! p' = shape <$> σ !! p'.
Proof.
  rewrite modify_unfold.
  destruct (σ !! p) as [[text [] w|entries]|] eqn:E; try done.
  destruct (str_in "<svg" text); [|done].
  destruct (recolored color text); [|done].
  destruct w; [|done]. cbn [snd].
  destruct (decide (p' = p)) as [->|Hne].
  - by rewrite lookup_insert_eq, E.
  - by rewrite lookup_insert_ne.
Qed.

End ColourFacts.

Section RecolorMore.
Import Str Props MoreProps StrFacts Re ReFacts SvgHelper RecolorFacts.
Import InsertFacts PieceFacts ModifyFacts ColourFacts.

(** X1. [modify_svg_color] is all or nothing.  When it returns [False] the
    file store is as before: a missing path, a directory, a file that cannot
    be read or cannot be written, a text without svg tag, a colour that
    [re.sub] rejects.  When it returns [True] the path named a readable and
    writable file with an svg tag, and only its text has changed. *)
Theorem X1_modify_all_or_nothing (svg_path color : string)
    (σ : gmap string node) :
  ((modify_svg_color svg_path color σ).1 = Ok false →
   (modify_svg_color svg_path color σ).2 = σ) ∧
  ((modify_svg_color svg_path color σ).1 = Ok true →
   ∃ text text',
     σ !! svg_path = Some (File text true true) ∧
     str_in "<svg" text = true ∧
     recolored color text = Some text' ∧
     (modify_svg_color svg_path color σ).2 =
       <[svg_path := File text' true true]> σ) ∧
  (∀ text r, σ !! svg_path = Some (File text r false) →
     modify_svg_color svg_path color σ = (Ok false, σ)) ∧
  (∀ text w, σ !! svg_path = Some (File text false w) →
     modify_svg_color svg_path color σ = (Ok false, σ)) ∧
  (∀ entries, σ !! svg_path = Some (Dir entries) →
     modify_svg_color svg_path color σ = (Ok false, σ)).
Proof.
  rewrite modify_unfold.
  destruct (σ !! svg_path) as [[text [] w|entries]|] eqn:E;
    try (split_and!; try done; intros; simplify_eq; done).
  destruct (str_in "<svg" text) eqn:Hsvg;
    [|split_and!; try done; intros; simplify_eq; done].
  destruct (recolored color text) as [text'|] eqn:Hrec;
    [|split_and!; try done; intros; simplify_eq; by rewrite ?Hsvg, ?Hrec].
  destruct w; split_and!; try done; intros; simplify_eq;
    rewrite ?Hsvg, ?Hrec; try done.
  by exists text, text'.
Qed.

(** X2. [modify_svg_color] creates no file and removes none, and it leaves
    every directory, and the permissions of every file, as they were. *)
Theorem X2_modify_keeps_shapes (svg_path color : string)
    (σ : gmap string node) :
  dom (modify_svg_color svg_path color σ).2 = dom σ ∧
  ∀ p, shape <$> (modify_svg_color svg_path color σ).2 !! p =
       shape <$> σ !! p.
Proof.
  split; [|intros p; apply modify_shape].
  apply set_eq. intros p. rewrite !elem_of_dom.
  pose proof (modify_shape svg_path p color σ) as H.
  destruct ((modify_svg_color svg_path color σ).2 !! p), (σ !! p);
    simpl in H; try done; split; eauto.
Qed.

(** X3. After a call on a readable and writable document with an svg tag,
    with a colour without backslash, the attribute with that colour is in
    the file, provided the document had no [fill=] at all or a value in
    double quotes somewhere. *)
Theorem X3_colour_in_file (svg_path color text : string)
    (σ : gmap string node) :
  σ !! svg_path = Some (File text true true) →
  str_in "<svg" text = true →
  has_char backslash color = false →
  str_in "fill=" text = false ∨ fill_occurs text = true →
  ∃ text',
    modify_svg_color svg_path color σ =
      (Ok true, <[svg_path := File text' true true]> σ) ∧
    str_in (fill_attr color) text' = true.
Proof.
  intros Hσ Hsvg Hb Hcase. rewrite modify_unfold, Hσ, Hsvg.
  destruct (sub_fill_plain color Hb) as (t & Hsub & Hlit).
  destruct (str_in "fill=" text) eqn:Hfill.
  - destruct Hcase as [?|Hocc]; [done|].
    rewrite (recolored_sub _ _ Hfill), Hsub. eexists. split; [done|].
    by apply (sub_has_attr color t Hlit).
  - rewrite (recolored_insert _ _ Hfill). eexists. split; [done|].
    apply ins_keeps; [apply fill_attr_in_new | done].
Qed.

Lemma X3_colour_in_file_witness :
  let text := "<svg viewBox='0 0 1 1'><path/></svg>" in
  ∃ text',
    modify_svg_color "/e/i.svg" "#f00" {[ "/e/i.svg" := File text true true ]} =
      (Ok true, <["/e/i.svg" := File text' true true]>
                  {[ "/e/i.svg" := File text true true ]}) ∧
    str_in (fill_attr "#f00") text' = true.
Proof.
  intros text.
  apply (X3_colour_in_file "/e/i.svg" "#f00" text);
    [reflexivity | reflexivity | reflexivity |].
  left. reflexivity.
Defined.

(** X4. The last colour wins: a call with a plain colour followed by a call
    with a second colour leaves the file store as the second call alone
    would, as long as the text written by the first call still holds an svg
    tag. *)
Theorem X4_last_colour_wins (svg_path c1 c2 : string)
    (σ : gmap string node) :
  plain c1 →
  has_char backslash c2 = false →
  (∀ t1, (modify_svg_color svg_path c1 σ).1 = Ok true →
         text_at svg_path (modify_svg_color svg_path c1 σ).2 = Some t1 →
         str_in "<svg" t1 = true) →
  (modify_svg_color svg_path c2 (modify_svg_color svg_path c1 σ).2).2 =
  (modify_svg_color svg_path c2 σ).2.
Proof.
  intros Hp1 Hb2. rewrite (modify_unfold svg_path c1 σ).
  destruct (σ !! svg_path) as [[text [] w|entries]|] eqn:E; try done.
  destruct (str_in "<svg" text) eqn:Hsvg; [|done].
  destruct (recolored c1 text) as [t1|] eqn:Hrec; [|done].
  destruct w; [|done]. cbn [fst snd]. intros Htag.
  specialize (Htag t1 eq_refl). unfold text_at in Htag.
  rewrite lookup_insert_eq in Htag. specialize (Htag eq_refl).
  rewrite !modify_unfold, lookup_insert_eq, E, Htag, Hsvg.
  rewrite (recolored_last_wins c1 c2 text t1 Hp1 Hb2 Hrec).
  destruct (recolored_plain_some c2 text Hb2) as [t2 ->]. cbn [snd].
  apply insert_insert_eq.
Qed.

Lemma X4_last_colour_wins_witness :
  let σ : gmap string node :=
    {[ "/e/i.svg" := File "<svg><path/></svg>" true true ]} in
  plain "#f00" ∧
  (modify_svg_color "/e/i.svg" "#00f"
     (modify_svg_color "/e/i.svg" "#f00" σ).2).2 =
  (modify_svg_color "/e/i.svg" "#00f" σ).2.
Proof.
  intros σ. split; [split; reflexivity|].
  apply X4_last_colour_wins.
  - split; reflexivity.
  - reflexivity.
  - intros t1 _ Ht. vm_compute in Ht. injection Ht as <-. reflexivity.
Defined.

End RecolorMore.

(** ** More on the pass: its result as a fold over the names *)

Module PassMoreFacts.
Import Str Props MoreProps StrFacts SvgHelper ModifyFacts PassFacts ColourFacts.

Lemma for_each_run (color icons_dir : string) (entries : list string)
    (σ : gmap string node) :
  for_each entries
    (λ svg_file,
       if endswith ".svg" svg_file
       then (modify_svg_color (Os.path_join icons_dir [svg_file]) color ;;
             ret tt)%py
       else ret tt) σ =
  (Ok tt, pass_store color icons_dir entries σ).
Proof.
  revert σ. induction entries as [|x l IH]; intros σ; [done|].
  cbn [for_each]. unfold bind at 1. rewrite body_run. cbv beta iota.
  rewrite IH. done.
Qed.

(** The whole pass: the fallback icon, then the fold over the listing when
    the icons directory is one; the error of [os.listdir] ends the pass
    there. *)
Lemma update_run (color base_dir : string) (σ : gmap string node) :
  let images_dir := Os.path_join base_dir ["images"] in
  let icons_dir := Os.path_join images_dir ["icons"] in
  let σ1 := (modify_svg_color (Os.path_join images_dir ["icon.svg"])
               color σ).2 in
  update_svg_colors color base_dir σ =
  (Ok tt, match σ1 !! icons_dir with
          | Some (Dir entries) => pass_store color icons_dir entries σ1
          | _ => σ1
          end).
Proof.
  intros images_dir icons_dir σ1. unfold update_svg_colors.
  fold images_dir icons_dir. unfold bind at 1.
  destruct (modify_returns (Os.path_join images_dir ["icon.svg"]) color σ)
    as [b Hb].
  unfold σ1.
  destruct (modify_svg_color (Os.path_join images_dir ["icon.svg"]) color σ)
    as [o σ']. simpl in Hb. subst o. cbn [snd].
  unfold try_except, bind at 1, Os.listdir.
  destruct (σ' !! icons_dir) as [[text r w|entries]|]; try done.
  by rewrite for_each_run.
Qed.

Lemma pass_store_cons (color icons_dir x : string) (l : list string)
    (σ : gmap string node) :
  pass_store color icons_dir (x :: l) σ =
  pass_store color icons_dir l
    (if endswith ".svg" x
     then (modify_svg_color (Os.path_join icons_dir [x]) color σ).2
     else σ).
Proof. reflexivity. Qed.

Lemma pass_store_shape (color icons_dir : string) (entries : list string)
    (σ : gmap string node) (p : string) :
  shape <$> pass_store color icons_dir entries σ !! p = shape <$> σ !! p.
Proof.
  revert σ. induction entries as [|x l IH]; intros σ; [done|].
  rewrite pass_store_cons, IH.
  destruct (endswith ".svg" x); [apply modify_shape | done].
Qed.

(** The fold, file by file, for a listing of distinct names without
    slash. *)
Lemma pass_store_lookup (color icons_dir : string) (entries : list string)
    (σ : gmap string node) :
  Forall (λ name, has_char "/" name = false) entries →
  NoDup entries →
  (∀ name, name ∈ entries → endswith ".svg" name = true →
     pass_store color icons_dir entries σ !! Os.path_join icons_dir [name] =
     (modify_svg_color (Os.path_join icons_dir [name]) color σ).2
       !! Os.path_join icons_dir [name]) ∧
  (∀ p, (∀ name, name ∈ entries → endswith ".svg" name = true →
           p ≠ Os.path_join icons_dir [name]) →
     pass_store color icons_dir entries σ !! p = σ !! p).
Proof.
  intros Hall Hnd.
  destruct (for_each_recolor color icons_dir entries σ Hall Hnd)
    as (_ & Hin & Hout).
  rewrite for_each_run in Hin, Hout. by split.
Qed.

(** A path is one of the files of the pass, or it is none of them. *)
Lemma pass_path_dec (icons_dir : string) (entries : list string) (p : string) :
  (∃ name, name ∈ entries ∧ endswith ".svg" name = true ∧
           p = Os.path_join icons_dir [name]) ∨
  (∀ name, name ∈ entries → endswith ".svg" name = true →
           p ≠ Os.path_join icons_dir [name]).
Proof.
  induction entries as [|x l IH].
  - right. intros name Hin. by apply elem_of_nil in Hin.
  - destruct IH as [(name & Hin & Hsvg & ->)|IH].
    + left. exists name. split_and!; [by right | done..].
    + destruct (endswith ".svg" x) eqn:Hx.
      * destruct (decide (p = Os.path_join icons_dir [x])) as [->|Hne].
        -- left. exists x. split_and!; [by left | done..].
        -- right. intros name [->|Hin]%elem_of_cons Hsvg; [done|].
           by apply IH.
      * right. intros name [->|Hin]%elem_of_cons Hsvg; [congruence|].
        by apply IH.
Qed.

End PassMoreFacts.

Section PassMore.
Import Str Props MoreProps StrFacts SvgHelper ModifyFacts PassFacts.
Import ColourFacts PassMoreFacts.

(** X5. With a plain colour, a second pass of [update_svg_colors] changes
    nothing: the file store after two passes is the file store after one.
    The icons directory is taken to exist, its listing to have distinct
    names without slash. *)
Theorem X5_pass_twice (color base_dir : string) (σ : gmap string node)
    (entries : list string) :
  plain color →
  σ !! Os.path_join (Os.path_join base_dir ["images"]) ["icons"] =
    Some (Dir entries) →
  Forall (λ name, has_char "/" name = false) entries →
  NoDup entries →
  (update_svg_colors color base_dir
     (update_svg_colors color base_dir σ).2).2 =
  (update_svg_colors color base_dir σ).2.
Proof.
  intros Hplain Hdir Hall Hnd.
  set (images_dir := Os.path_join base_dir ["images"]) in *.
  set (icons_dir := Os.path_join images_dir ["icons"]) in *.
  set (icon := Os.path_join images_dir ["icon.svg"]).
  assert (Hrun : ∀ τ, τ !! icons_dir = Some (Dir entries) →
    (update_svg_colors color base_dir τ).2 =
    pass_store color icons_dir entries (modify_svg_color icon color τ).2).
  { intros τ Hτ. rewrite update_run. cbv zeta. cbn [snd].
    fold images_dir icons_dir icon.
    by rewrite (modify_keeps_dir icon icons_dir color τ entries Hτ). }
  assert (Hne : ∀ name, name ∈ entries →
                Os.path_join icons_dir [name] ≠ icon).
  { intros name Hname. apply icon_path_ne, no_slash_not_absolute.
    by apply (proj1 (Forall_forall _ _) Hall). }
  rewrite (Hrun σ Hdir).
  set (σ1 := (modify_svg_color icon color σ).2).
  set (σ' := pass_store color icons_dir entries σ1).
  assert (Hdir' : σ' !! icons_dir = Some (Dir entries)).
  { pose proof (pass_store_shape color icons_dir entries σ1 icons_dir) as H1.
    pose proof (modify_shape icon icons_dir color σ) as H2.
    fold σ' in H1. fold σ1 in H2. rewrite H2, Hdir in H1.
    destruct (σ' !! icons_dir) as [[]|]; simpl in H1; congruence. }
  rewrite (Hrun σ' Hdir').
  destruct (pass_store_lookup color icons_dir entries σ1 Hall Hnd)
    as [Hin Hout].
  destruct (pass_store_lookup color icons_dir entries
    (modify_svg_color icon color σ').2 Hall Hnd) as [Hin2 Hout2].
  fold σ' in Hin, Hout.
  apply map_eq. intros p.
  destruct (pass_path_dec icons_dir entries p)
    as [(name & Hname & Hsvg & ->)|Hp].
  - rewrite (Hin2 name Hname Hsvg), (Hin name Hname Hsvg).
    rewrite <- (modify_twice (Os.path_join icons_dir [name]) color σ1 Hplain).
    apply modify_local. rewrite modify_frame by (by apply Hne).
    by apply Hin.
  - rewrite (Hout2 p Hp), (Hout p Hp).
    destruct (decide (p = icon)) as [->|Hpi].
    + unfold σ1. rewrite <- (modify_twice icon color σ Hplain).
      apply modify_local. fold σ1. by rewrite (Hout icon Hp).
    + by rewrite !modify_frame, (Hout p Hp).
Qed.

Lemma X5_pass_twice_witness :
  let σ : gmap string node :=
    <["/e/images/icons" := Dir ["a.svg"; "bad.svg"]]>
    (<["/e/images/icon.svg" := File "<svg><path/></svg>" true true]>
    (<["/e/images/icons/a.svg" := File "<svg><path/></svg>" true true]>
    (<["/e/images/icons/bad.svg" := File "not an image" true true]> ∅))) in
  plain "#f00" ∧
  (update_svg_colors "#f00" "/e" (update_svg_colors "#f00" "/e" σ).2).2 =
  (update_svg_colors "#f00" "/e" σ).2.
Proof.
  intros σ. split; [split; reflexivity|].
  apply (X5_pass_twice "#f00" "/e" σ ["a.svg"; "bad.svg"]).
  - split; reflexivity.
  - reflexivity.
  - repeat constructor.
  - apply (bool_decide_unpack _). vm_compute. exact I.
Defined.

(** X6. When the icons directory is missing, or is not a directory, the
    pass raises nothing and is the recoloring of the fallback icon alone. *)
Theorem X6_pass_without_directory (color base_dir : string)
    (σ : gmap string node) :
  let images_dir := Os.path_join base_dir ["images"] in
  (∀ entries,
     σ !! Os.path_join images_dir ["icons"] ≠ Some (Dir entries)) →
  update_svg_colors color base_dir σ =
  (Ok tt, (modify_svg_color (Os.path_join images_dir ["icon.svg"])
             color σ).2).
Proof.
  intros images_dir Hno. rewrite update_run. cbv zeta. fold images_dir.
  set (σ1 := (modify_svg_color (Os.path_join images_dir ["icon.svg"])
                color σ).2).
  pose proof (modify_shape (Os.path_join images_dir ["icon.svg"])
    (Os.path_join images_dir ["icons"]) color σ) as H.
  fold σ1 in H.
  destruct (σ1 !! Os.path_join images_dir ["icons"])
    as [[text r w|entries]|] eqn:E1; try done.
  destruct (σ !! Os.path_join images_dir ["icons"]) as [[]|] eqn:E;
    cbn [fmap option_fmap option_map shape] in H; try done.
  injection H as <-. by destruct (Hno entries).
Qed.

Lemma X6_pass_without_directory_witness :
  let σ : gmap string node :=
    {[ "/e/images/icon.svg" := File "<svg><path/></svg>" true true ]} in
  update_svg_colors "#f00" "/e" σ =
  (Ok tt, (modify_svg_color "/e/images/icon.svg" "#f00" σ).2).
Proof.
  intros σ. apply (X6_pass_without_directory "#f00" "/e" σ).
  intros entries. vm_compute. discriminate.
Defined.

(** X7. A pass of [update_svg_colors] creates no file and removes none, and
    leaves every directory and the permissions of every file as they
    were, whatever the directory holds. *)
Theorem X7_pass_keeps_shapes (color base_dir : string)
    (σ : gmap string node) :
  dom (update_svg_colors color base_dir σ).2 = dom σ ∧
  ∀ p, shape <$> (update_svg_colors color base_dir σ).2 !! p =
       shape <$> σ !! p.
Proof.
  assert (H : ∀ p, shape <$> (update_svg_colors color base_dir σ).2 !! p =
                   shape <$> σ !! p).
  { intros p. rewrite update_run. cbv zeta. cbn [snd].
    destruct (_ !! Os.path_join (Os.path_join base_dir ["images"]) ["icons"])
      as [[text r w|entries]|]; rewrite ?pass_store_shape;
      apply modify_shape. }
  split; [|done]. apply set_eq. intros p. rewrite !elem_of_dom.
  specialize (H p).
  destruct ((update_svg_colors color base_dir σ).2 !! p), (σ !! p);
    simpl in H; try done; split; eauto.
Qed.

End PassMore.

(** ** More on the cache: its bound, repeated calls and eviction *)

Module CacheMoreFacts.
Import Str Props MoreProps StrFacts Main CacheFacts.
Local Open Scope nat_scope.
Local Open Scope list_scope.

Section Lru.
Context {K V : Type} `{EqDecision K}.

Lemma cache_lookup_None (k : K) (c : list (K * V)) :
  cache_lookup k c = None ↔ k ∉ c.*1.
Proof.
  induction c as [|[k0 v0] c IH].
  - split; [intros _; apply not_elem_of_nil | done].
  - rewrite cache_lookup_cons. cbn [fmap list_fmap fst].
    rewrite not_elem_of_cons. destruct (decide (k0 = k)) as [->|Hne].
    + split; [done | by intros [? _]].
    + rewrite IH. split; [by split | by intros [_ ?]].
Qed.

Lemma cache_remove_keys (k : K) (c : list (K * V)) :
  k ∉ (cache_remove k c).*1.
Proof.
  induction c as [|[k0 v0] c IH]; [apply not_elem_of_nil|].
  unfold cache_remove in *. cbn [List.filter fst].
  destruct (decide (k0 = k)) as [->|Hne].
  - by rewrite bool_decide_eq_true_2.
  - rewrite bool_decide_eq_false_2 by done. cbn [negb fmap list_fmap fst].
    by apply not_elem_of_cons.
Qed.

Lemma cache_remove_sublist (k : K) (c : list (K * V)) :
  cache_remove k c `sublist_of` c.
Proof.
  induction c as [|x c IH]; [done|]. unfold cache_remove in *.
  cbn [List.filter]. destruct (negb _);
    [by apply sublist_skip | by apply sublist_cons].
Qed.

Lemma cache_remove_length (k : K) (v : V) (c : list (K * V)) :
  cache_lookup k c = Some v → length (cache_remove k c) < length c.
Proof.
  induction c as [|[k0 v0] c IH]; [done|].
  rewrite cache_lookup_cons. unfold cache_remove in *. cbn [List.filter fst].
  destruct (decide (k0 = k)) as [->|Hne].
  - intros _. rewrite bool_decide_eq_true_2 by done. cbn [negb length].
    pose proof (sublist_length _ _ (cache_remove_sublist k c)) as Hl.
    unfold cache_remove in Hl. lia.
  - intros Hl. rewrite bool_decide_eq_false_2 by done. cbn [negb length].
    specialize (IH Hl). lia.
Qed.

Lemma cache_remove_app (k : K) (c1 c2 : list (K * V)) :
  cache_remove k (c1 ++ c2) = cache_remove k c1 ++ cache_remove k c2.
Proof. apply List.filter_app. Qed.

Lemma cache_lookup_middle (k : K) (v : V) (pre post : list (K * V)) :
  k ∉ pre.*1 → cache_lookup k (pre ++ (k, v) :: post) = Some v.
Proof.
  induction pre as [|[k0 v0] pre IH]; cbn [fmap list_fmap fst app].
  - intros _. rewrite cache_lookup_cons. by rewrite decide_True.
  - intros [Hne Hpre]%not_elem_of_cons. rewrite cache_lookup_cons.
    rewrite decide_False by done. by apply IH.
Qed.

End Lru.

(** After a call the key is in the cache with the string returned; no
    exception leaves the call and the file store is the same. *)
Lemma call_caches (a : args) c (σ : gmap string node) :
  ∃ v, get_copy_content a (c, σ) =
         (Ok v, ((get_copy_content a (c, σ)).2.1, σ)) ∧
       cache_lookup a (get_copy_content a (c, σ)).2.1 = Some v.
Proof.
  destruct (cache_lookup a c) as [v|] eqn:E.
  - exists v. rewrite (cached_hit a v c σ E). split; [done|].
    cbn [fst snd]. rewrite cache_lookup_cons. by rewrite decide_True.
  - destruct (cached_miss a c σ E) as (v & _ & ->). exists v.
    split; [done|]. cbn [fst snd take].
    rewrite cache_lookup_cons. by rewrite decide_True.
Qed.

(** A call keeps the cache within its size, with one entry per key. *)
Lemma call_bounded (a : args) c (σ : gmap string node) :
  length c ≤ 64 → NoDup c.*1 →
  length (get_copy_content a (c, σ)).2.1 ≤ 64 ∧
  NoDup (get_copy_content a (c, σ)).2.1.*1.
Proof.
  intros Hlen Hnd. destruct (cache_lookup a c) as [v|] eqn:E.
  - rewrite (cached_hit a v c σ E). cbn [fst snd]. split.
    + cbn [length]. pose proof (cache_remove_length a v c E). lia.
    + cbn [fmap list_fmap fst]. apply NoDup_cons. split.
      * apply cache_remove_keys.
      * eapply sublist_NoDup; [exact Hnd|].
        apply fmap_sublist, cache_remove_sublist.
  - destruct (cached_miss a c σ E) as (v & _ & ->). cbn [fst snd]. split.
    + rewrite length_take. lia.
    + rewrite fmap_take. eapply sublist_NoDup; [|apply sublist_take].
      cbn [fmap list_fmap fst]. apply NoDup_cons. split; [|done].
      by apply cache_lookup_None.
Qed.

(** A call with another key moves an entry at most one place back, and
    keeps it when it is not at the last place. *)
Lemma call_moves_one (a b : args) (v : string) c (σ : gmap string node)
    (n : nat) :
  b ≠ a → n < 63 →
  (∃ pre post, c = pre ++ (a, v) :: post ∧ (a ∉ pre.*1) ∧ length pre ≤ n) →
  ∃ pre post, (get_copy_content b (c, σ)).2.1 = pre ++ (a, v) :: post ∧
              (a ∉ pre.*1) ∧ length pre ≤ S n.
Proof.
  intros Hne Hn (pre & post & -> & Hpre & Hlen).
  destruct (cache_lookup b (pre ++ (a, v) :: post)) as [vb|] eqn:E.
  - rewrite (cached_hit b vb _ σ E). cbn [fst snd].
    rewrite cache_remove_app.
    exists ((b, vb) :: cache_remove b pre), (cache_remove b post).
    split_and!.
    + unfold cache_remove at 2. cbn [List.filter fst].
      rewrite bool_decide_eq_false_2 by (by intros ->). done.
    + cbn [fmap list_fmap fst]. apply not_elem_of_cons. split; [done|].
      intros Hin. apply Hpre.
      eapply elem_of_sublist; [exact Hin|].
      apply fmap_sublist, cache_remove_sublist.
    + cbn [length].
      pose proof (sublist_length _ _ (cache_remove_sublist b pre)). lia.
  - destruct (cached_miss b _ σ E) as (vb & _ & ->). cbn [fst snd].
    exists ((b, vb) :: pre), (take (62 - length pre) post). split_and!.
    + cbn [take]. rewrite take_app, (take_ge pre) by lia.
      replace (63 - length pre) with (S (62 - length pre)) by lia. done.
    + cbn [fmap list_fmap fst]. apply not_elem_of_cons. by split.
    + cbn [length]. lia.
Qed.

Lemma calls_move (a : args) (v : string)
    (calls : list (args * gmap string node)) c (n : nat) :
  Forall (λ call, call.1 ≠ a) calls →
  n + length calls ≤ 63 →
  (∃ pre post, c = pre ++ (a, v) :: post ∧ (a ∉ pre.*1) ∧ length pre ≤ n) →
  cache_lookup a (cache_after calls c) = Some v.
Proof.
  intros Hall. revert c n.
  induction Hall as [|[b σ] calls Hb Hall IH]; intros c n Hn Hc.
  - destruct Hc as (pre & post & -> & Hpre & _).
    by apply cache_lookup_middle.
  - cbn [cache_after]. cbn [length] in Hn. apply (IH _ (S n)); [lia|].
    apply call_moves_one; [done | lia | done].
Qed.

Lemma reachable_bounded c : reachable c → length c ≤ 64 ∧ NoDup c.*1.
Proof.
  induction 1 as [|c σ a Hc [IH1 IH2]].
  - split; [simpl; lia | constructor].
  - by apply call_bounded.
Qed.

End CacheMoreFacts.

Section CacheMore.
Import Str Props MoreProps StrFacts Main CacheFacts CacheMoreFacts.

(** X8. The cache of [get_copy_content] never holds more than 64 entries,
    and never two entries for the same arguments, in any state that calls
    can reach, whether they hit or miss. *)
Theorem X8_cache_bounded c :
  reachable c → (length c ≤ 64)%nat ∧ NoDup c.*1.
Proof. apply reachable_bounded. Qed.

Lemma X8_cache_bounded_witness :
  let a := {| format_type := "class"; icon_name := "home"; icon_ident := "home";
              unicode_value := ""; style := "solid"; base_dir := "/e" |} in
  let c := (get_copy_content a ([], ∅)).2.1 in
  reachable c ∧ ((length c ≤ 64)%nat ∧ NoDup c.*1).
Proof.
  intros a c.
  assert (Hc : reachable c) by (apply reachable_call; constructor).
  split; [exact Hc | exact (X8_cache_bounded c Hc)].
Defined.

(** X9. Memoization: right after a call, a call with the same arguments
    returns the same string whatever the file store has become, and it
    reads nothing; no call raises or changes the file store. *)
Theorem X9_repeated_call (a : args) c (σ σ' : gmap string node) :
  let first := get_copy_content a (c, σ) in
  let second := get_copy_content a (first.2.1, σ') in
  (∃ v, first.1 = Ok v ∧ second.1 = Ok v) ∧
  first.2.2 = σ ∧ second.2.2 = σ'.
Proof.
  intros first second. unfold second.
  destruct (call_caches a c σ) as (v & Hrun & Hlook). fold first in Hrun, Hlook.
  rewrite (cached_hit a v _ σ' Hlook). rewrite Hrun. cbn [fst snd].
  split; [by exists v | done].
Qed.

(** X10. Least recently used, 64 places: after a call, the next 63 calls
    with other arguments, hits or misses, with any file stores, do not evict
    its entry; the arguments are then still answered with the same
    string. *)
Theorem X10_entry_survives (a : args) c (σ σ' : gmap string node)
    (calls : list (args * gmap string node)) :
  Forall (λ call, call.1 ≠ a) calls →
  (length calls ≤ 63)%nat →
  let first := get_copy_content a (c, σ) in
  (get_copy_content a (cache_after calls first.2.1, σ')).1 = first.1.
Proof.
  intros Hall Hlen first.
  assert (Hfront : ∃ v, first.1 = Ok v ∧
    ∃ pre post, first.2.1 = (pre ++ (a, v) :: post)%list ∧ (a ∉ pre.*1) ∧
                (length pre ≤ 0)%nat).
  { unfold first. destruct (cache_lookup a c) as [v|] eqn:E.
    - rewrite (cached_hit a v c σ E). exists v. split; [done|].
      exists [], (cache_remove a c). split_and!; [done| |done].
      apply not_elem_of_nil.
    - destruct (cached_miss a c σ E) as (v & _ & ->). exists v.
      split; [done|]. exists [], (take 63 c). split_and!; [done| |done].
      apply not_elem_of_nil. }
  destruct Hfront as (v & Hv & Hpos).
  rewrite Hv.
  by rewrite (cached_hit a v _ σ' (calls_move a v calls _ 0 Hall Hlen Hpos)).
Qed.

Lemma X10_entry_survives_witness :
  let a := {| format_type := "svg"; icon_name := "home"; icon_ident := "home";
              unicode_value := ""; style := "solid"; base_dir := "/e" |} in
  let b := {| format_type := "class"; icon_name := "bell"; icon_ident := "bell";
              unicode_value := ""; style := "solid"; base_dir := "/e" |} in
  let σ : gmap string node :=
    {[ "/e/images/icons/home.svg" := File "<svg/>" true true ]} in
  (get_copy_content a
     (cache_after [(b, ∅); (b, σ)] (get_copy_content a ([], σ)).2.1, ∅)).1 =
  (get_copy_content a ([], σ)).1.
Proof.
  intros a b σ.
  apply (X10_entry_survives a [] σ ∅ [(b, ∅); (b, σ)]).
  - repeat constructor; discriminate.
  - simpl. lia.
Defined.

End CacheMore.

Section SearchMore.
Import Str Props MoreProps StrFacts Main SortFacts SearchFacts.

(** X11. Nothing is lost below the cut: when at most ten records of the
    catalog match the query, every one of them is in the result, and the
    result is a rearrangement of the matching records. *)
Theorem X11_search_complete (query : string) (icons_data : catalog) :
  (length (List.filter (is_match (lower query)) icons_data) ≤ 10)%nat →
  _search_icons query icons_data ≡ₚ
    List.filter (is_match (lower query)) icons_data ∧
  ∀ x, x ∈ icons_data →
       (str_in (lower query) (lower x.1) = true ∨
        ∃ tag, tag ∈ default [] (search_terms x.2) ∧
               str_in (lower query) (lower tag) = true) →
       x ∈ _search_icons query icons_data.
Proof.
  intros Hlen.
  assert (Hperm : _search_icons query icons_data ≡ₚ
                  List.filter (is_match (lower query)) icons_data).
  { rewrite search_unfold, take_ge; [apply sort_by_perm|].
    by rewrite sort_by_perm. }
  split; [done|]. intros x Hx Hm. rewrite Hperm.
  apply list_elem_of_In, filter_In. split; [by apply list_elem_of_In|].
  by apply is_match_spec.
Qed.

Lemma X11_search_complete_witness :
  let catalog := [("house", with_terms ["home-like"]); ("bell", with_terms []);
                  ("home", with_terms [])] in
  ("house", with_terms ["home-like"]) ∈ _search_icons "Home" catalog.
Proof.
  intros catalog.
  destruct (X11_search_complete "Home" catalog) as [_ H].
  - vm_compute. lia.
  - apply H; [left|].
    right. exists "home-like". split; [left | reflexivity].
Defined.

(** X12. An icon whose name is the query, letter case apart, is never
    ranked below another: when the catalog has such an icon, the first
    result has such a name. *)
Theorem X12_exact_name_first (query : string) (icons_data : catalog) :
  (∃ x, x ∈ icons_data ∧ lower x.1 = lower query) →
  ∃ y, _search_icons query icons_data !! 0%nat = Some y ∧
       lower y.1 = lower query.
Proof.
  intros (x & Hx & Hname).
  assert (Hm : is_match (lower query) x = true).
  { apply is_match_spec. left. rewrite Hname.
    apply str_in_startswith, startswith_refl. }
  assert (Hin : x ∈ sort_by (relevance (lower query))
                      (List.filter (is_match (lower query)) icons_data)).
  { rewrite sort_by_perm. apply list_elem_of_In, filter_In.
    split; [by apply list_elem_of_In | done]. }
  pose proof (sort_by_sorted (relevance (lower query))
    (List.filter (is_match (lower query)) icons_data)) as Hs.
  rewrite search_unfold.
  destruct (sort_by _ _) as [|y s]; [by apply elem_of_nil in Hin|].
  exists y. split; [done|].
  apply (proj1 (relevance_spec (lower query) y)).
  assert (Hx0 : relevance (lower query) x = 0%nat)
    by (by apply (proj1 (relevance_spec (lower query) x))).
  apply elem_of_cons in Hin as [->|Hin]; [done|].
  inversion Hs as [|? ? _ Hall]; subst.
  pose proof (proj1 (Forall_forall _ _) Hall x Hin) as Hle.
  simpl in Hle. lia.
Qed.

Lemma X12_exact_name_first_witness :
  let catalog := [("homepage", with_terms []); ("house", with_terms ["home"]);
                  ("Home", with_terms [])] in
  ∃ y, _search_icons "home" catalog !! 0%nat = Some y ∧
       lower y.1 = lower "home".
Proof.
  intros catalog. apply (X12_exact_name_first "home" catalog).
  exists ("Home", with_terms []). split; [|reflexivity].
  right. right. left.
Defined.

(** X13. No icon is listed twice: with one record per name in the catalog,
    as in a dictionary, the names of the result are distinct. *)
Theorem X13_search_no_duplicates (query : string) (icons_data : catalog) :
  NoDup icons_data.*1 → NoDup (_search_icons query icons_data).*1.
Proof.
  intros Hnd. rewrite search_unfold.
  eapply sublist_NoDup; [|apply fmap_sublist, sublist_take].
  rewrite sort_by_perm.
  eapply sublist_NoDup; [exact Hnd|]. apply fmap_sublist, filter_sublist.
Qed.

Lemma X13_search_no_duplicates_witness :
  let catalog := [("home", with_terms []); ("homepage", with_terms [])] in
  NoDup catalog.*1 ∧ NoDup (_search_icons "home" catalog).*1.
Proof.
  intros catalog.
  assert (Hnd : NoDup catalog.*1)
    by (apply (bool_decide_unpack _); vm_compute; exact I).
  split; [exact Hnd | exact (X13_search_no_duplicates "home" catalog Hnd)].
Defined.

End SearchMore.

(** ** The result items *)

Module ItemFacts.
Import Str Props MoreProps StrFacts Main Listeners CacheFacts CacheMoreFacts.

(** One turn of the loop: a call through the cache, a look at the asset
    file, no exception, the file store as before. *)
Lemma result_item_run (capitalize : string → string) (base_dir : string)
    (ext : extension) (icon : string * icon_data) c (σ : gmap string node) :
  ∃ v, get_copy_content (copy_args base_dir ext icon) (c, σ) =
         (Ok v, ((get_copy_content (copy_args base_dir ext icon) (c, σ)).2.1,
                 σ)) ∧
       result_item capitalize base_dir ext icon (c, σ) =
         (Ok (item_of capitalize base_dir icon v
                (bool_decide (is_Some (σ !! icon_path base_dir icon)))),
          ((get_copy_content (copy_args base_dir ext icon) (c, σ)).2.1, σ)).
Proof.
  destruct (call_caches (copy_args base_dir ext icon) c σ) as (v & Hrun & _).
  exists v. split; [done|]. unfold result_item. unfold bind at 1.
  change (get_copy_content _ (c, σ))
    with (get_copy_content (copy_args base_dir ext icon) (c, σ)).
  rewrite Hrun. cbn [fst snd]. reflexivity.
Qed.

(** The cache stays reachable along the loop. *)
Lemma result_item_reachable (capitalize : string → string) (base_dir : string)
    (ext : extension) (icon : string * icon_data) c (σ : gmap string node) :
  reachable c →
  reachable (result_item capitalize base_dir ext icon (c, σ)).2.1.
Proof.
  intros Hc.
  destruct (result_item_run capitalize base_dir ext icon c σ) as (v & _ & ->).
  cbn [fst snd]. by constructor.
Qed.

(** The whole loop: one item per icon, in order; each item is that of its
    icon for the string the cache gives at its turn. *)
Lemma create_results_run (capitalize : string → string) (base_dir : string)
    (ext : extension) (matched : list (string * icon_data)) c
    (σ : gmap string node) :
  ∃ items c',
    _create_results capitalize base_dir matched ext (c, σ) =
      (Ok items, (c', σ)) ∧
    (reachable c → reachable c') ∧
    Forall2 (λ icon item,
               ∃ v k, item = item_of capitalize base_dir icon v
                        (bool_decide (is_Some (σ !! icon_path base_dir icon)))
                      ∧ (get_copy_content (copy_args base_dir ext icon)
                           (k, σ)).1 = Ok v
                      ∧ (reachable c → reachable k))
            matched items.
Proof.
  revert c. induction matched as [|icon rest IH]; intros c.
  - exists [], c. split_and!; [done..|constructor].
  - destruct (result_item_run capitalize base_dir ext icon c σ)
      as (v & Hcall & Hitem).
    destruct (IH (get_copy_content (copy_args base_dir ext icon) (c, σ)).2.1)
      as (items & c' & Hrest & Hreach & Hall).
    exists (item_of capitalize base_dir icon v
              (bool_decide (is_Some (σ !! icon_path base_dir icon)))
            :: items), c'.
    split_and!.
    + cbn [_create_results]. unfold bind at 1. rewrite Hitem.
      cbv beta iota. unfold bind at 1. rewrite Hrest. reflexivity.
    + intros Hc. apply Hreach. by constructor.
    + constructor.
      * exists v, c. split_and!; [done| |done]. by rewrite Hcall.
      * eapply Forall2_impl; [exact Hall|].
        intros i it (v' & k & -> & Hv' & Hk). exists v', k.
        split_and!; [done..|]. intros Hc. apply Hk. by constructor.
Qed.

Lemma create_results_names (capitalize : string → string)
    (base_dir : string) (ext : extension)
    (matched : list (string * icon_data)) c (σ : gmap string node) :
  ∃ items c',
    _create_results capitalize base_dir matched ext (c, σ) =
      (Ok items, (c', σ)) ∧
    item_name <$> items = matched.*1.
Proof.
  destruct (create_results_run capitalize base_dir ext matched c σ)
    as (items & c' & Hrun & _ & Hall).
  exists items, c'. split; [done|]. clear Hrun.
  induction Hall as [|i it l1 l2 (v & k & -> & _) _ IH]; [done|].
  cbn [fmap list_fmap]. by rewrite IH.
Qed.

Lemma search_terms_part_cut (d : icon_data) :
  search_terms_part (cut_terms d) = search_terms_part d.
Proof.
  unfold search_terms_part, cut_terms. cbn [search_terms].
  destruct (search_terms d) as [[|t ts]|]; try done.
  cbn [fmap option_fmap option_map]. cbn [take].
  by rewrite take_take.
Qed.

End ItemFacts.

Section Items.
Import Str Props MoreProps StrFacts Main Listeners SvgHelper.
Import CacheFacts CacheMoreFacts ItemFacts SearchFacts PassFacts.

(** X14. [_create_results] raises nothing and leaves the file store as it
    is; it gives one item per matched icon, in the same order, named after
    the icon; the picture of an item is the asset file of the icon when that
    path exists and the fallback icon otherwise, and entering an item
    copies a string to the clipboard. *)
Theorem X14_create_results_items (capitalize : string → string)
    (base_dir : string) (ext : extension)
    (matched_icons : list (string * icon_data)) c (σ : gmap string node) :
  ∃ items c',
    _create_results capitalize base_dir matched_icons ext (c, σ) =
      (Ok items, (c', σ)) ∧
    item_name <$> items = matched_icons.*1 ∧
    Forall2 (λ icon item,
               item_icon item =
                 (if bool_decide (is_Some (σ !! icon_path base_dir icon))
                  then icon_path base_dir icon
                  else fallback_icon base_dir) ∧
               ∃ v, item_on_enter item = CopyToClipboardAction v)
            matched_icons items.
Proof.
  destruct (create_results_run capitalize base_dir ext matched_icons c σ)
    as (items & c' & Hrun & _ & Hall).
  exists items, c'. split_and!; [done| |].
  - clear Hrun. induction Hall as [|i it l1 l2 (v & k & -> & _) _ IH];
      [done|]. cbn [fmap list_fmap]. by rewrite IH.
  - eapply Forall2_impl; [exact Hall|].
    intros i it (v & k & -> & _). split; [done | by exists v].
Qed.

(** X15. With the copy format html, through a cache that calls have
    reached, entering the item of an icon copies the markup with the class
    of the icon; the style code is that of the first style of the icon, and
    of solid when the icon names no style.  With the copy format class it
    copies the class alone. *)
Theorem X15_items_copy_markup (capitalize : string → string)
    (base_dir : string) (ext : extension)
    (matched_icons : list (string * icon_data)) c (σ : gmap string node) :
  reachable c →
  ∃ items c',
    _create_results capitalize base_dir matched_icons ext (c, σ) =
      (Ok items, (c', σ)) ∧
    (copy_format ext = "html" →
     item_on_enter <$> items =
     (λ icon, CopyToClipboardAction
        ("<i class=" +:+ q +:+ "fa" +:+ style_short (first_style icon.2)
         +:+ " fa-" +:+ icon.1 +:+ q +:+ "></i>")) <$> matched_icons) ∧
    (copy_format ext = "class" →
     item_on_enter <$> items =
     (λ icon, CopyToClipboardAction
        ("fa" +:+ style_short (first_style icon.2) +:+ " fa-" +:+ icon.1))
       <$> matched_icons) ∧
    (∀ d, styles d = None ∨ styles d = Some [] → first_style d = "solid").
Proof.
  intros Hc.
  destruct (create_results_run capitalize base_dir ext matched_icons c σ)
    as (items & c' & Hrun & _ & Hall).
  exists items, c'. split; [done|]. clear Hrun.
  assert (Hpure : ∀ icon v k, reachable k →
    copy_format ext ≠ "svg" →
    (get_copy_content (copy_args base_dir ext icon) (k, σ)).1 = Ok v →
    (get_copy_content_wrapped (copy_args base_dir ext icon) σ).1 = Ok v).
  { intros icon v k Hk Hf Hv.
    by rewrite <- (cached_pure (copy_args base_dir ext icon) k σ Hk
      (Hf : format_type (copy_args base_dir ext icon) ≠ "svg")). }
  split_and!.
  - intros Hf. induction Hall as [|i it l1 l2 (v & k & -> & Hv & Hk) _ IH];
      [done|]. cbn [fmap list_fmap]. rewrite IH. f_equal.
    apply Hpure in Hv; [|by apply Hk|by rewrite Hf].
    unfold get_copy_content_wrapped in Hv. cbn [format_type copy_args] in Hv.
    rewrite Hf in Hv. cbn in Hv. injection Hv as <-.
    cbn [item_on_enter item_of]. f_equal.
    unfold html_snippet, class_string. cbn. by rewrite !append_assoc.
  - intros Hf. induction Hall as [|i it l1 l2 (v & k & -> & Hv & Hk) _ IH];
      [done|]. cbn [fmap list_fmap]. rewrite IH. f_equal.
    apply Hpure in Hv; [|by apply Hk|by rewrite Hf].
    unfold get_copy_content_wrapped in Hv. cbn [format_type copy_args] in Hv.
    rewrite Hf in Hv. cbn in Hv. by injection Hv as <-.
  - intros d [H|H]; unfold first_style; by rewrite H.
Qed.

Lemma X15_items_copy_markup_witness :
  let ext := {| copy_format := "html"; icon_color := "#7dcfff";
                max_results := 10; icons_data := [] |} in
  let matched := [("home", with_terms ["house"])] in
  reachable [] ∧
  ∃ items c',
    _create_results (λ s, s) "/e" matched ext ([], ∅) = (Ok items, (c', ∅)) ∧
    item_on_enter <$> items =
    [CopyToClipboardAction
       ("<i class=" +:+ q +:+ "fas fa-home" +:+ q +:+ "></i>")].
Proof.
  intros ext matched. split; [constructor|].
  destruct (X15_items_copy_markup (λ s, s) "/e" ext matched [] ∅
    reachable_start) as (items & c' & Hrun & H & _).
  exists items, c'. split; [exact Hrun | exact (H eq_refl)].
Defined.

(** X16. Search terms after the fifth are never shown: cutting the search
    terms of every matched icon after the fifth changes nothing in what
    [_create_results] returns. *)
Theorem X16_terms_beyond_five_unused (capitalize : string → string)
    (base_dir : string) (ext : extension)
    (matched_icons : list (string * icon_data))
    (w : list (args * string) * gmap string node) :
  _create_results capitalize base_dir
    ((λ icon, (icon.1, cut_terms icon.2)) <$> matched_icons) ext w =
  _create_results capitalize base_dir matched_icons ext w.
Proof.
  revert w. induction matched_icons as [|[name d] rest IH]; intros w; [done|].
  cbn [fmap list_fmap _create_results fst snd].
  assert (Hitem : result_item capitalize base_dir ext (name, cut_terms d) =
                  result_item capitalize base_dir ext (name, d)).
  { unfold result_item, icon_path. cbn [fst snd].
    rewrite search_terms_part_cut. reflexivity. }
  rewrite Hitem. unfold bind at 1 3.
  destruct (result_item capitalize base_dir ext (name, d) w) as [[item|] w'];
    [|done].
  unfold bind at 1 2. fold (@fmap list _ _ _
    (λ icon : string * icon_data, (icon.1, cut_terms icon.2)) rest).
  by rewrite IH.
Qed.

(** X17. [KeywordQueryEventListener.on_event] raises nothing, leaves the
    file store as it is, and always renders between one and ten items: the
    instructions for no query, one item saying so when nothing matches, and
    otherwise one item per search result, in rank order. *)
Theorem X17_keyword_event_items (capitalize : string → string)
    (base_dir : string) (argument : option string) (ext : extension) c
    (σ : gmap string node) :
  let query := default "" argument in
  ∃ items c',
    KeywordQueryEventListener_on_event capitalize base_dir argument ext (c, σ)
      = (Ok items, (c', σ)) ∧
    (1 ≤ length items ∧ length items ≤ 10)%nat ∧
    (query = "" → items = [instructions_item]) ∧
    (query ≠ "" → _search_icons query (icons_data ext) = [] →
     items = [no_match_item query]) ∧
    (query ≠ "" → _search_icons query (icons_data ext) ≠ [] →
     item_name <$> items = (_search_icons query (icons_data ext)).*1).
Proof.
  intros query. unfold KeywordQueryEventListener_on_event. fold query.
  destruct (String.eqb_spec query "") as [Hq|Hq].
  - exists [instructions_item], c.
    split; [done|]. split; [simpl; lia|]. by split_and!.
  - destruct (create_results_names capitalize base_dir ext
      (_search_icons query (icons_data ext)) c σ)
      as (items & c' & Hrun & Hnames).
    unfold bind. rewrite Hrun. cbv beta iota.
    pose proof (search_length query (icons_data ext)) as Hlen.
    assert (Hl : length items = length (_search_icons query (icons_data ext))).
    { by rewrite <- (length_fmap item_name), Hnames, length_fmap. }
    destruct items as [|it items].
    + exists [no_match_item query], c'.
      split; [done|]. split; [simpl; lia|]. split; [done|]. split; [done|].
      intros _ Hne. destruct (_search_icons query (icons_data ext));
        [done | discriminate].
    + exists (it :: items), c'.
      split; [done|]. split; [simpl in *; lia|]. split; [done|].
      split; [|done]. intros _ Hnil. rewrite Hnil in Hl. discriminate.
Qed.

(** X18. [PreferencesUpdateEventListener.on_event] raises nothing and never
    changes the catalog or [max_results], not even for an event that names
    [max_results].  Only an event for [icon_color] touches the files, with
    one pass of [update_svg_colors] in the new colour; an event for
    [copy_format] sets the format. *)
Theorem X18_preferences_update (base_dir id new_value : string)
    (ext : extension) (σ : gmap string node) :
  ∃ ext',
    (PreferencesUpdateEventListener_on_event base_dir id new_value ext σ).1
      = Ok ext' ∧
    icons_data ext' = icons_data ext ∧
    max_results ext' = max_results ext ∧
    (id = "copy_format" → copy_format ext' = new_value) ∧
    (id ≠ "icon_color" →
     icon_color ext' = icon_color ext ∧
     (PreferencesUpdateEventListener_on_event base_dir id new_value ext σ).2
       = σ) ∧
    (id = "icon_color" →
     icon_color ext' = new_value ∧ copy_format ext' = copy_format ext ∧
     (PreferencesUpdateEventListener_on_event base_dir id new_value ext σ).2
       = (update_svg_colors new_value base_dir σ).2).
Proof.
  unfold PreferencesUpdateEventListener_on_event.
  destruct (String.eqb_spec id "copy_format") as [->|H1].
  - eexists. split_and!; try done.
  - destruct (String.eqb_spec id "icon_color") as [->|H2].
    + unfold bind. pose proof (update_returns new_value base_dir σ) as Hr.
      destruct (update_svg_colors new_value base_dir σ) as [o σ'].
      simpl in Hr. subst o. eexists. split_and!; try done.
    + exists ext. split_and!; try done.
Qed.

End Items.
